(** * main_denoising.py: the chunked speech-enhancement pipeline

    A shallow embedding of [denoise_wav], [Process] and [main_denoising] of
    [src/main_denoising.py], and the properties its specification states.

    Conventions of the embedding.
    - Python integers are [Z]; [int(x)] of a non-integral number truncates
      toward zero.
    - Python floats are idealised: [truncate_minutes] is a rational ([Q]),
      spectral values and reconstructed samples are reals ([R]).  Rounding of
      IEEE arithmetic is outside the model.
    - Code that raises returns [Raise e] in the [result] monad; an exception
      is its type name and the text [str(e)] gives.
    - The helpers of [utils] and [decode_model] are not part of the embedded
      file; they are the fields of the record [collaborators], over which
      the pipeline is parameterised.
    - Arrays of one shape are combined entry by entry; the statements about
      entries assume the shapes agree, as numpy requires.
    - Console output and the temporary directory of each chunk are left
      out: no statement below depends on them. *)

From Stdlib Require Import ZArith String Ascii Bool QArith Reals Lia Lra.
From Stdlib Require Import List.
Import ListNotations.

Local Open Scope Z_scope.

(** ** Exceptions and the error monad *)

Record exn : Type := mk_exn { exn_type : string; exn_text : string }.

Inductive result (A : Type) : Type :=
| Ok (a : A)
| Raise (e : exn).

Arguments Ok {A} a.
Arguments Raise {A} e.

Definition bind {A B : Type} (r : result A) (k : A -> result B) : result B :=
  match r with
  | Ok a => k a
  | Raise e => Raise e
  end.

Notation "x <- r ;; k" := (bind r (fun x => k))
  (at level 61, r at next level, right associativity).

(** The exceptions the embedded lines raise themselves. *)
Definition ZeroDivisionError : exn :=
  mk_exn "ZeroDivisionError" "division by zero".
Definition ValueError_concatenate : exn :=
  mk_exn "ValueError" "need at least one array to concatenate".
(** (The text is that of Python up to 3.10.) *)
Definition UnboundLocalError_recovered_lps : exn :=
  mk_exn "UnboundLocalError"
         "local variable 'recovered_lps' referenced before assignment".
Definition IOError_loadmat : exn :=
  mk_exn "IOError" "could not read irm.mat".
Definition IOError_read : exn :=
  mk_exn "IOError" "could not read the WAV file".

(** ** Module constants (lines 78-83) *)

Definition SR : Z := 16000.
Definition NUM_CHANNELS : Z := 1.
Definition BITDEPTH : Z := 16.
Definition WL : Z := 512.
Definition WL2 : Z := WL / 2.
Definition NFREQS : Z := 257.

(** ** Python sequences *)

Definition len {A : Type} (l : list A) : Z := Z.of_nat (length l).

(** [l[b:e]]: a negative index counts from the end, and both indices are
    clamped to the sequence. *)
Definition slice_index (i n : Z) : Z :=
  if i <? 0 then Z.max 0 (i + n) else Z.min i n.

Definition py_slice {A : Type} (b e : Z) (l : list A) : list A :=
  let b' := slice_index b (len l) in
  let e' := slice_index e (len l) in
  firstn (Z.to_nat (e' - b')) (skipn (Z.to_nat b') l).

(** [range(a, b)] *)
Definition py_range (a b : Z) : list Z :=
  map (fun k => a + Z.of_nat k) (seq 0 (Z.to_nat (b - a))).

(** ** The chunk scheduler (lines 156-166) *)

(** [int(x)] for a rational [x]. *)
Definition int_of_Q (x : Q) : Z := Z.quot (Qnum x) (Zpos (Qden x)).

(** [chunk_length = int(truncate_minutes*rate*60)], with the product taken
    exactly. The code rounds each of the two products to a double, which can
    move the result by a sample (0.6 minutes at 16 kHz gives 576000 there,
    575999 here for the double nearest to 0.6). The statements below that
    mention [chunk_length] hold for whatever integer it is. *)
Definition chunk_length (truncate_minutes : Q) (rate : Z) : Z :=
  int_of_Q (truncate_minutes * inject_Z rate * inject_Z 60)%Q.

(** [math.ceil(a / b)] for integers [a], [b] under true division; the
    division raises when [b] is zero. *)
Definition ceil_div (a b : Z) : Z := - ((- a) / b).

Definition total_chunks (size chunk_length : Z) : result Z :=
  if chunk_length =? 0 then Raise ZeroDivisionError
  else Ok (ceil_div size chunk_length).

(** The samples of chunk [i]: [bi], [ei] and [wav_data[bi:ei]]. *)
Definition chunk {A : Type} (wav_data : list A) (chunk_length i : Z) : list A :=
  let bi := (i - 1) * chunk_length in
  let ei := bi + chunk_length in
  py_slice bi ei wav_data.

(** The indices the loop visits, given [total_chunks]. *)
Definition chunk_indices (total : Z) : list Z := py_range 1 (total + 1).

(** The samples at the positions [b <= p < e] of a buffer, for stating what
    a chunk covers. *)
Definition samples_between {A : Type} (b e : Z) (l : list A) : list A :=
  firstn (Z.to_nat (e - b)) (skipn (Z.to_nat b) l).

(** ** Arrays and the cast to 16-bit samples (lines 238-239) *)

(** The arrays collected in [data_se]: a slice of the integer sample buffer,
    or the floating-point waveform the reconstruction returns. *)
Inductive ndarray : Type :=
| IntArr (l : list Z)
| FloatArr (l : list R).

(** The two's-complement value of the low 16 bits. *)
Definition wrap16 (z : Z) : Z := (z + 32768) mod 65536 - 32768.

(** The clamping cast the code does not use, for comparison. *)
Definition clamp16 (z : Z) : Z := Z.max (-32768) (Z.min 32767 z).

(** Truncation of a real toward zero. *)
Definition Rtrunc (x : R) : Z :=
  if Rlt_dec x 0 then - Int_part (- x) else Int_part x.

(** A value of the 32-bit signed range. *)
Definition fits_int32 (z : Z) : bool :=
  (-2147483648 <=? z) && (z <? 2147483648).

(** The cast of one float to [int16]: the value is truncated toward zero
    and converted to 32 bits, of which the low 16 are kept; a value beyond
    the 32-bit range converts to the pattern [0x80000000], whose low 16 bits
    are zero. (The reals have no nan or infinity; those give 0 as well.) *)
Definition float_to_int16 (v : R) : Z :=
  if fits_int32 (Rtrunc v) then wrap16 (Rtrunc v) else 0.

(** [x.astype(np.int16, copy=False)]: an integer keeps its low 16 bits; a
    float is cast as above. *)
Definition astype_int16 (x : ndarray) : list Z :=
  match x with
  | IntArr l => map wrap16 l
  | FloatArr l => map float_to_int16 l
  end.

(** [np.concatenate], which refuses the empty list. *)
Definition np_concatenate (arrays : list (list Z)) : result (list Z) :=
  match arrays with
  | [] => Raise ValueError_concatenate
  | _ => Ok (concat arrays)
  end.

(** ** Feature matrices and elementwise arithmetic (lines 187, 224-229) *)

Definition matrix : Type := list (list R).

Fixpoint zip_with {A B C : Type} (f : A -> B -> C) (a : list A) (b : list B)
  : list C :=
  match a, b with
  | x :: a', y :: b' => f x y :: zip_with f a' b'
  | _, _ => []
  end.

(** Elementwise unary and binary operations on arrays of one shape. *)
Definition mat_map (f : R -> R) (m : matrix) : matrix := map (map f) m.
Definition mat_zip (f : R -> R -> R) (a b : matrix) : matrix :=
  zip_with (zip_with f) a b.

(** A binary operation between a [frames x n] matrix and a row of [n]
    statistics, broadcast over the frames. *)
Definition mat_row (f : R -> R -> R) (m : matrix) (v : list R) : matrix :=
  map (fun row => zip_with f row v) m.

(** Entry [(t, k)] of a matrix. *)
Definition entry (m : matrix) (t k : nat) : R := nth k (nth t m []) 0%R.

(** [m] has [frames] rows of [n] entries each. *)
Definition shape (m : matrix) (frames n : nat) : Prop :=
  length m = frames /\ Forall (fun row => length row = n) m.

(** [(noisy_htkdata - global_mean) / global_var] *)
Definition normed_noisy (noisy : matrix) (global_mean global_var : list R)
  : matrix :=
  mat_row Rdiv (mat_row Rminus noisy global_mean) global_var.

(** [noisy_htkdata + np.log(irm)] *)
Definition irm_masked (noisy irm : matrix) : matrix :=
  mat_zip Rplus noisy (mat_map ln irm).

(** [(lps * global_var) + global_mean] *)
Definition denormalized (lps : matrix) (global_mean global_var : list R)
  : matrix :=
  mat_row Rplus (mat_row Rmult lps global_var) global_mean.

Definition half : R := (/ 2)%R.

(** The result file [irm.mat] of the estimator. *)
Record MaskEstimate : Type := { IRM : matrix; LPS : matrix }.

(** The three arms of lines 224-229; with any other [mode] the name
    [recovered_lps] is unbound when line 232 reads it. *)
Definition recovered_lps (mode : Z) (noisy : matrix) (est : MaskEstimate)
           (global_mean global_var : list R) : result matrix :=
  if mode =? 1 then
    Ok (irm_masked noisy (IRM est))
  else if mode =? 2 then
    Ok (denormalized (LPS est) global_mean global_var)
  else if mode =? 3 then
    Ok (mat_zip Rplus
          (mat_map (Rmult half) (irm_masked noisy (IRM est)))
          (mat_map (Rmult half)
                   (denormalized (LPS est) global_mean global_var)))
  else Raise UnboundLocalError_recovered_lps.

(** ** Strings and paths *)

(** [str.lower] on ASCII letters. *)
Definition lower_ascii (c : ascii) : ascii :=
  let n := nat_of_ascii c in
  if (65 <=? n)%nat && (n <=? 90)%nat then ascii_of_nat (n + 32) else c.

Fixpoint lower (s : string) : string :=
  match s with
  | EmptyString => EmptyString
  | String c s' => String (lower_ascii c) (lower s')
  end.

Definition slash : ascii := "/"%char.

(** [os.path.basename]: what follows the last slash. *)
Fixpoint basename_from (acc s : string) : string :=
  match s with
  | EmptyString => acc
  | String c s' =>
      if Ascii.eqb c slash then basename_from s' s' else basename_from acc s'
  end.

Definition os_path_basename (p : string) : string := basename_from p p.

Fixpoint ends_with_slash (s : string) : bool :=
  match s with
  | EmptyString => false
  | String c EmptyString => Ascii.eqb c slash
  | String _ s' => ends_with_slash s'
  end.

(** [os.path.join(a, b)] for a [b] that holds no slash. *)
Definition os_path_join (a b : string) : string :=
  match a with
  | EmptyString => b
  | _ => if ends_with_slash a then a ++ b else a ++ String slash b
  end.

(** ** The isolated estimator call: class [Process] (lines 86-105) *)

(** A Python exception class, as line 218 uses it: called with one string
    it returns an instance, or the call itself raises. *)
Definition exn_class : Type := string -> result exn.

(** A class with the constructor and [str] of [BaseException]: any
    arguments are accepted, and [str] of an instance made from one string is
    that string. *)
Definition plain_class (name : string) : exn_class :=
  fun arg => Ok (mk_exn name arg).

(** Python's [UnicodeDecodeError], whose constructor takes five arguments. *)
Definition UnicodeDecodeError_class : exn_class :=
  fun _ => Raise (mk_exn "TypeError"
                         "function takes exactly 5 arguments (1 given)").

(** What running the target in the child does. It returns, leaving
    [irm.mat] behind (or not). Or it raises an [Exception] [e], of class
    [cls], while [traceback.format_exc()] reads [tb]. Or the child ends
    without passing line 96 or line 99: by [SystemExit] or another exception
    that is no [Exception], by [os._exit], or killed by a signal. *)
Inductive target_outcome : Type :=
| Returned (irm_mat : option MaskEstimate)
| Failed (e : exn) (cls : exn_class) (tb : string)
| Died (irm_mat : option MaskEstimate).

(** A [Process] object as the parent sees it: the messages waiting in the
    pipe, and the attribute [_exception]. A message holds the exception,
    which brings its class along, and the trace. *)
Record process : Type := {
  pipe : list (option (exn * exn_class * string));
  _exception : option (exn * exn_class * string)
}.

(** [Process.__init__] *)
Definition Process_init : process := {| pipe := []; _exception := None |}.

(** [Process.run], seen from the parent after [start] and [join]: [None] is
    sent when the target returns, the exception and its formatted trace when
    it raises an [Exception]; nothing is sent when the child ends
    otherwise. *)
Definition Process_run (t : target_outcome) (p : process) : process :=
  match t with
  | Returned _ =>
      {| pipe := pipe p ++ [None]; _exception := _exception p |}
  | Failed e cls tb =>
      {| pipe := pipe p ++ [Some (e, cls, tb)]; _exception := _exception p |}
  | Died _ => p
  end.

(** The property [Process.exception]: a waiting message replaces
    [_exception], which is returned. *)
Definition Process_exception (p : process)
  : option (exn * exn_class * string) * process :=
  match pipe p with
  | m :: rest => (m, {| pipe := rest; _exception := m |})
  | [] => (_exception p, p)
  end.

Definition TypeError_unpack : exn :=
  mk_exn "TypeError" "'NoneType' object is not iterable".

(** [sio.loadmat(outputs_fn)] of what the child left. *)
Definition loadmat_outputs (t : target_outcome) : result MaskEstimate :=
  match t with
  | Returned (Some est) | Died (Some est) => Ok est
  | _ => Raise IOError_loadmat
  end.

(** ** The collaborators outside the embedded file *)

Record collaborators : Type := {
  (** [utils.peak_normalization(wav_data)] *)
  peak_normalization : list Z -> result (list Z);
  (** [utils.wav2logspec(temp, window=np.hamming(WL))] *)
  wav2logspec : list Z -> result matrix;
  (** [utils.logspec2wav(recovered_lps, temp, window, n_per_seg, noverlap)] *)
  logspec2wav : matrix -> list Z -> result (list R);
  (** [decode_model(scp, tmp_dir, NFREQS, use_gpu, gpu_id, mode,
      model_select, stage_select)], given the feature file the script file
      names (if one was written) and the last frame index it declares. *)
  decode_model :
    option matrix -> Z -> Z -> bool -> Z -> Z -> string -> Z -> target_outcome
}.

(** The arguments of [main_denoising] that stay fixed over a batch, and the
    statistics it loads. *)
Record options : Type := {
  output_dir : string;
  verbose : bool;
  use_gpu : bool;
  gpu_id : Z;
  truncate_minutes : Q;
  mode : Z;
  model_select : string;
  stage_select : Z;
  global_mean : list R;
  global_var : list R
}.

(** ** Files and diagnostics *)

(** What the checks of [utils] read from a path, and its samples. *)
Record wav_file : Type := {
  is_wav : bool;
  sr : Z;
  num_channels : Z;
  bitdepth : Z;
  samples : list Z
}.

Definition filesystem : Type := string -> option wav_file.

(** The messages passed to [utils.error]. *)
Inductive message : Type :=
| NotExist (f : string)
| NotWav (f : string)
| BadRate (f : string) (expected : Z)
| NotMono (f : string)
| BadBitdepth (f : string) (expected : Z)
| Problem (f : string) (full_error_output : option string).

Record world : Type := { files : filesystem; errors : list message }.

Definition utils_error (w : world) (m : message) : world :=
  {| files := files w; errors := errors w ++ [m] |}.

(** [wav_io.read(src_wav_file)] *)
Definition wav_io_read (fs : filesystem) (src : string)
  : result (Z * list Z) :=
  match fs src with
  | Some f => Ok (sr f, samples f)
  | None => Raise IOError_read
  end.

(** [wav_io.write(dest_wav_file, rate, data)] of 16-bit mono samples. *)
Definition wav_io_write (fs : filesystem) (dest : string) (rate : Z)
           (data : list Z) : filesystem :=
  fun p =>
    if String.eqb p dest then
      Some {| is_wav := true; sr := rate; num_channels := 1;
              bitdepth := 16; samples := data |}
    else fs p.

(** ** Concrete collaborators, options and files for the examples *)

(** The examples need some instance of each collaborator. Their normaliser
    returns the samples it is given and their feature extractor returns one
    frame of one bin: stand-ins, not descriptions of [utils]. The theorems
    are stated for every instance. *)
Module Sample.
(** An estimator that answers every request with a one-by-one estimate. *)
Definition estimator_ok : collaborators :=
  {| peak_normalization := fun l => Ok l;
     wav2logspec := fun _ => Ok [[0%R]];
     logspec2wav := fun m _ => Ok (concat m);
     decode_model := fun _ _ _ _ _ _ _ _ =>
       Returned (Some {| IRM := [[1%R]]; LPS := [[0%R]] |}) |}.


(** An estimator that raises a [UnicodeDecodeError] in the child process. *)
Definition estimator_fails_decoding : collaborators :=
  {| peak_normalization := fun l => Ok l;
     wav2logspec := fun _ => Ok [[0%R]];
     logspec2wav := fun m _ => Ok (concat m);
     decode_model := fun _ _ _ _ _ _ _ _ =>
       Failed (mk_exn "UnicodeDecodeError"
                      "'utf8' codec can't decode byte 0xff in position 0")
              UnicodeDecodeError_class
              "Traceback (most recent call last): UnicodeDecodeError" |}.

Definition settings (minutes : Q) (m : Z) (model : string) (v : bool)
  : options :=
  {| output_dir := "out"; verbose := v; use_gpu := false; gpu_id := 0;
     truncate_minutes := minutes; mode := m; model_select := model;
     stage_select := 3; global_mean := [0%R]; global_var := [1%R] |}.

Definition mono16 (rate : Z) (data : list Z) : wav_file :=
  {| is_wav := true; sr := rate; num_channels := 1; bitdepth := 16;
     samples := data |}.

(** Four files: two samples, no samples, one click ahead of 255 samples of
    silence, and two samples at 8000 Hz. *)
Definition disk : filesystem :=
  fun p =>
    if String.eqb p "in/short.wav" then Some (mono16 16000 [1; 2])
    else if String.eqb p "in/empty.wav" then Some (mono16 16000 [])
    else if String.eqb p "in/frame.wav" then
      Some (mono16 16000 (7 :: repeat 0 255))
    else if String.eqb p "in/8k.wav" then Some (mono16 8000 [1; 2])
    else None.

Definition start : world := {| files := disk; errors := [] |}.

Definition frame : list Z := 7 :: repeat 0 255.

Definition estimate : MaskEstimate :=
  {| IRM := [[1%R]]; LPS := [[0%R]] |}.

(** An estimator whose reconstruction returns the chunk it is given. *)
Definition estimator_echo : collaborators :=
  {| peak_normalization := fun l => Ok l;
     wav2logspec := fun _ => Ok [[0%R]];
     logspec2wav := fun _ t => Ok (map IZR t);
     decode_model := fun _ _ _ _ _ _ _ _ =>
       Returned (Some {| IRM := [[1%R]]; LPS := [[0%R]] |}) |}.

(** Options that write into the directory of the sources. *)
Definition in_place : options :=
  {| output_dir := "in"; verbose := false; use_gpu := false; gpu_id := 0;
     truncate_minutes := inject_Z 10; mode := 1; model_select := "1000h";
     stage_select := 3; global_mean := [0%R]; global_var := [1%R] |}.
End Sample.

(** ** [denoise_wav] and [main_denoising] *)

Section Pipeline.
Variable U : collaborators.
Variable o : options.

(** Lines 187-198: the normalised features, computed for every chunk, and
    the feature file: normalised features for the 400h model, raw ones for
    the 1000h model, none otherwise. (Arrays are combined entry by entry
    here; numpy raises at line 187 when the statistics cannot be broadcast
    against the features, which this embedding leaves out.) *)
Definition features_written (noisy : matrix) : option matrix :=
  let normed_noisy := normed_noisy noisy (global_mean o) (global_var o) in
  if String.eqb (lower (model_select o)) "400h" then
    Some normed_noisy
  else if String.eqb (lower (model_select o)) "1000h" then
    Some noisy
  else None.

(** The outcome of the child process of lines 211-215. *)
Definition run_estimator (noisy : matrix) : target_outcome :=
  let cntk_len := len noisy - 1 in
  decode_model U (features_written noisy) cntk_len NFREQS
               (use_gpu o) (gpu_id o) (mode o) (model_select o)
               (stage_select o).

(** Lines 184-234: the body of the loop for a chunk that is long enough.
    Line 218, [raise type(e)(tb)], calls the class of the exception with
    the trace: what is raised is the instance made, or what the call
    raises. *)
Definition enhance (temp : list Z) : result (list R) :=
  noisy_htkdata <- wav2logspec U temp ;;
  let child := run_estimator noisy_htkdata in
  let p := Process_run child Process_init in
  let (raised, p) := Process_exception p in
  match raised with
  | Some _ =>
      let (again, p) := Process_exception p in
      match again with
      | Some (e, type_e, tb) => x <- type_e tb ;; Raise x
      | None => Raise TypeError_unpack
      end
  | None =>
      est <- loadmat_outputs child ;;
      recovered <- recovered_lps (mode o) noisy_htkdata est
                                 (global_mean o) (global_var o) ;;
      logspec2wav U recovered temp
  end.

(** Lines 160-237: the loop over the chunk indices, with [data_se]. *)
Fixpoint chunk_loop (wav_data : list Z) (chunk_length : Z)
         (indices : list Z) (data_se : list ndarray)
  : result (list ndarray) :=
  match indices with
  | [] => Ok data_se
  | i :: rest =>
      let temp := chunk wav_data chunk_length i in
      if len temp <? WL2 then
        chunk_loop wav_data chunk_length rest (data_se ++ [IntArr temp])
      else
        wave_recon <- enhance temp ;;
        chunk_loop wav_data chunk_length rest
                   (data_se ++ [FloatArr wave_recon])
  end.

(** What one pass of the loop body appends to [data_se] for a chunk. *)
Definition segment_for (temp : list Z) : result ndarray :=
  if len temp <? WL2 then Ok (IntArr temp)
  else wave_recon <- enhance temp ;; Ok (FloatArr wave_recon).

(** Lines 153-239: from the samples read to the samples written. *)
Definition denoise_samples (rate : Z) (wav_data : list Z)
  : result (list Z) :=
  wav_data <- peak_normalization U wav_data ;;
  let chunk_length := chunk_length (truncate_minutes o) rate in
  total <- total_chunks (len wav_data) chunk_length ;;
  data_se <- chunk_loop wav_data chunk_length (chunk_indices total) [] ;;
  np_concatenate (map astype_int16 data_se).

Definition denoise_wav (fs : filesystem) (src_wav_file dest_wav_file : string)
  : result filesystem :=
  r <- wav_io_read fs src_wav_file ;;
  data_se <- denoise_samples (fst r) (snd r) ;;
  Ok (wav_io_write fs dest_wav_file SR data_se).

(** Lines 271-301: the body of the loop over the files. *)
Definition process_file (w : world) (src_wav_file : string) : world :=
  match files w src_wav_file with
  | None => utils_error w (NotExist src_wav_file)
  | Some f =>
      if negb (is_wav f) then utils_error w (NotWav src_wav_file)
      else if negb (sr f =? SR) then
        utils_error w (BadRate src_wav_file SR)
      else if negb (num_channels f =? NUM_CHANNELS) then
        utils_error w (NotMono src_wav_file)
      else if negb (bitdepth f =? BITDEPTH) then
        utils_error w (BadBitdepth src_wav_file BITDEPTH)
      else
        let bn := os_path_basename src_wav_file in
        let dest_wav_file := os_path_join (output_dir o) bn in
        match denoise_wav (files w) src_wav_file dest_wav_file with
        | Ok fs => {| files := fs; errors := errors w |}
        | Raise e =>
            let full := if verbose o then Some (exn_text e) else None in
            utils_error w (Problem src_wav_file full)
        end
  end.

Definition main_denoising (wav_files : list string) (w : world) : world :=
  fold_left process_file wav_files w.

(** ** Vocabulary of the statements *)

(** [z] is the 16-bit signed integer congruent to [v] modulo [2^16]. *)
Definition int16_wrap_of (v z : Z) : Prop :=
  -32768 <= z <= 32767 /\ exists k : Z, z = v + 65536 * k.

(** [t] is [v] truncated toward zero. *)
Definition truncation_of (v : R) (t : Z) : Prop :=
  ((0 <= v)%R -> (IZR t <= v < IZR t + 1)%R) /\
  ((v < 0)%R -> (IZR t - 1 < v <= IZR t)%R).

(** [z] is the cast of the float [v]: the wrapped truncation of [v] when it
    fits 32 bits, zero when it does not. *)
Definition float_cast_of (v : R) (z : Z) : Prop :=
  exists t : Z,
    truncation_of v t /\
    (-2147483648 <= t < 2147483648 -> int16_wrap_of t z) /\
    (~ -2147483648 <= t < 2147483648 -> z = 0).

(** The 16-bit samples [piece] are the casts of the array [x], element by
    element. *)
Definition wrapped_cast_of (x : ndarray) (piece : list Z) : Prop :=
  match x with
  | IntArr l => Forall2 int16_wrap_of l piece
  | FloatArr l => Forall2 float_cast_of l piece
  end.

(** The file at [src] passes the five checks of lines 272-288. *)
Definition passes_checks (fs : filesystem) (src : string) : Prop :=
  exists f,
    fs src = Some f /\ is_wav f = true /\ sr f = SR /\
    num_channels f = NUM_CHANNELS /\ bitdepth f = BITDEPTH.

(** The output path of line 293. *)
Definition dest_of (src : string) : string :=
  os_path_join (output_dir o) (os_path_basename src).

(** The message of lines 297-299 for an exception [e]. *)
Definition problem_message (src : string) (e : exn) : message :=
  Problem src (if verbose o then Some (exn_text e) else None).

(** The messages of the five checks. *)
Definition check_message (src : string) (m : message) : Prop :=
  m = NotExist src \/ m = NotWav src \/ m = BadRate src SR \/
  m = NotMono src \/ m = BadBitdepth src BITDEPTH.

(** The arrays [segs] are what the loop appends for the chunks [1..n] of
    the buffer [wav], one per chunk and in chunk order. *)
Definition segments_of (wav : list Z) (c n : Z) (segs : list ndarray)
  : Prop :=
  Forall2 (fun i seg => segment_for (chunk wav c i) = Ok seg)
          (chunk_indices n) segs.

(** ** The temporary directory of each chunk (lines 161, 162, 236-237) *)

(** The temporary directories: those that exist, and how many
    [tempfile.mkdtemp] has made; each one made gets a name not used before. *)
Record tmp_dirs : Type := { live : list nat; made : nat }.

(** [tempfile.mkdtemp()] *)
Definition mkdtemp (s : tmp_dirs) : nat * tmp_dirs :=
  (made s, {| live := made s :: live s; made := S (made s) |}).

(** [shutil.rmtree(tmp_dir)] *)
Definition shutil_rmtree (d : nat) (s : tmp_dirs) : tmp_dirs :=
  {| live := remove Nat.eq_dec d (live s); made := made s |}.

(** Lines 160-237 again, with the directories: [mkdtemp] ahead of the
    [try], the body of the loop inside it ([continue] for a short chunk
    included), and [rmtree] in the [finally], which runs whether the body
    went through, continued or raised. *)
Fixpoint chunk_loop_tmp (wav_data : list Z) (chunk_length : Z)
         (indices : list Z) (data_se : list ndarray) (s : tmp_dirs)
  : result (list ndarray) * tmp_dirs :=
  match indices with
  | [] => (Ok data_se, s)
  | i :: rest =>
      let (tmp_dir, s) := mkdtemp s in
      let temp := chunk wav_data chunk_length i in
      let tried :=
        if len temp <? WL2 then Ok (IntArr temp)
        else wave_recon <- enhance temp ;; Ok (FloatArr wave_recon) in
      let s := shutil_rmtree tmp_dir s in
      match tried with
      | Ok x => chunk_loop_tmp wav_data chunk_length rest (data_se ++ [x]) s
      | Raise e => (Raise e, s)
      end
  end.

(** ** Further vocabulary *)

(** A string without a slash. *)
Fixpoint no_slash (s : string) : bool :=
  match s with
  | EmptyString => true
  | String c s' => negb (Ascii.eqb c slash) && no_slash s'
  end.

(** The file a message is about. *)
Definition message_file (m : message) : string :=
  match m with
  | NotExist f | NotWav f | BadRate f _ | NotMono f | BadBitdepth f _
  | Problem f _ => f
  end.

(** The file [src] of the batch is skipped because of the exception [e]:
    [denoise_wav] raises it, the [Problem] message is reported (with the
    text of [e] in verbose mode only), no file is written, and the batch
    goes on with the files after it. *)
Definition skipped_with (pre post : list string) (src : string) (w : world)
           (e : exn) : Prop :=
  denoise_wav (files (main_denoising pre w)) src (dest_of src) = Raise e /\
  process_file (main_denoising pre w) src
  = utils_error (main_denoising pre w)
                (Problem src (if verbose o then Some (exn_text e) else None)) /\
  files (process_file (main_denoising pre w) src)
  = files (main_denoising pre w) /\
  main_denoising (pre ++ src :: post) w
  = main_denoising post
      (utils_error (main_denoising pre w)
                   (Problem src (if verbose o then Some (exn_text e)
                                 else None))).


(** ** Lists: splitting by a fixed stride *)

Section Stride.
Context {A : Type}.

Lemma firstn_plus (a b : nat) (l : list A) :
  firstn (a + b) l = firstn a l ++ firstn b (skipn a l).
Proof.
  revert l; induction a as [|a IH]; intros l; simpl.
  - reflexivity.
  - destruct l as [|x l]; simpl.
    + now rewrite firstn_nil.
    + now rewrite IH.
Qed.

Lemma concat_strides (c n : nat) (l : list A) :
  concat (map (fun k => firstn c (skipn (k * c) l)) (seq 0 n))
  = firstn (n * c) l.
Proof.
  induction n as [|n IH].
  - reflexivity.
  - rewrite seq_S, map_app, concat_app, IH. simpl.
    rewrite app_nil_r.
    replace (c + n * c)%nat with (n * c + c)%nat by lia.
    now rewrite firstn_plus.
Qed.

Lemma py_slice_nonneg (b e : Z) (l : list A) :
  0 <= b -> b <= e ->
  py_slice b e l = firstn (Z.to_nat (e - b)) (skipn (Z.to_nat b) l).
Proof.
  intros Hb He. unfold py_slice, slice_index, len.
  destruct (Z.ltb_spec b 0); [lia|].
  destruct (Z.ltb_spec e 0); [lia|].
  destruct (Z_le_gt_dec (Z.of_nat (length l)) b) as [Hge|Hlt].
  - rewrite !skipn_all2 by lia. now rewrite !firstn_nil.
  - rewrite (Z.min_l b) by lia.
    destruct (Z_le_gt_dec e (Z.of_nat (length l))) as [Hin|Hout].
    + now rewrite (Z.min_l e) by lia.
    + rewrite (Z.min_r e) by lia.
      rewrite !firstn_all2; [reflexivity | |];
        rewrite length_skipn; lia.
Qed.

Lemma py_slice_length (b e : Z) (l : list A) :
  0 <= b -> b <= e ->
  len (py_slice b e l) = Z.max 0 (Z.min e (len l) - b).
Proof.
  intros Hb He. rewrite py_slice_nonneg by assumption.
  unfold len. rewrite length_firstn, length_skipn. lia.
Qed.

Lemma chunk_nonneg (wav : list A) (c i : Z) :
  0 <= c -> 1 <= i ->
  chunk wav c i
  = firstn (Z.to_nat c) (skipn (Z.to_nat (i - 1) * Z.to_nat c) wav).
Proof.
  intros Hc Hi. unfold chunk. cbv zeta.
  rewrite py_slice_nonneg by nia.
  f_equal; [f_equal; lia | f_equal; nia].
Qed.

Lemma chunk_length_eq (wav : list A) (c i : Z) :
  0 <= c -> 1 <= i ->
  len (chunk wav c i) = Z.max 0 (Z.min (i * c) (len wav) - (i - 1) * c).
Proof.
  intros Hc Hi. unfold chunk. cbv zeta.
  rewrite py_slice_length by nia. f_equal. f_equal. f_equal. lia.
Qed.

Lemma chunks_concat (wav : list A) (c n : Z) :
  0 <= c -> len wav <= n * c ->
  concat (map (chunk wav c) (chunk_indices n)) = wav.
Proof.
  intros Hc Hn. unfold chunk_indices, py_range.
  rewrite map_map.
  rewrite (map_ext_in _ (fun k => firstn (Z.to_nat c)
                                    (skipn (k * Z.to_nat c) wav))).
  - rewrite concat_strides. apply firstn_all2. unfold len in Hn. nia.
  - intros k _. rewrite chunk_nonneg by lia.
    do 2 f_equal. lia.
Qed.
End Stride.

Lemma py_range_length (a b : Z) : len (py_range a b) = Z.max 0 (b - a).
Proof. unfold py_range, len. rewrite length_map, length_seq. lia. Qed.

Lemma py_range_nth (a b : Z) (k : nat) :
  (k < Z.to_nat (b - a))%nat -> nth k (py_range a b) 0 = a + Z.of_nat k.
Proof.
  intros Hk. unfold py_range.
  rewrite (nth_indep _ 0 (a + Z.of_nat 0))
    by (rewrite length_map, length_seq; exact Hk).
  rewrite (map_nth (fun j => a + Z.of_nat j) _ 0%nat k).
  now rewrite seq_nth by exact Hk.
Qed.

Lemma ceil_div_bounds (a b : Z) :
  0 < b -> (ceil_div a b - 1) * b < a <= ceil_div a b * b.
Proof.
  intros Hb. unfold ceil_div.
  pose proof (Z.div_mod (- a) b ltac:(lia)) as Hdm.
  pose proof (Z.mod_pos_bound (- a) b Hb) as Hm.
  nia.
Qed.

Lemma ceil_div_unique (a b n : Z) :
  0 < b -> (n - 1) * b < a <= n * b -> n = ceil_div a b.
Proof.
  intros Hb Hn. pose proof (ceil_div_bounds a b Hb). nia.
Qed.

(** ** The chunk scheduler *)

Lemma chunk_indices_seq (n : Z) :
  chunk_indices n = map Z.of_nat (seq 1 (Z.to_nat n)).
Proof.
  unfold chunk_indices, py_range.
  replace (n + 1 - 1) with n by lia.
  rewrite <- seq_shift, map_map. apply map_ext. intros k. lia.
Qed.

Lemma chunk_covers {A : Type} (wav : list A) (c i : Z) :
  0 <= c -> 1 <= i -> (i - 1) * c <= len wav ->
  chunk wav c i
  = samples_between ((i - 1) * c) (Z.min (i * c) (len wav)) wav.
Proof.
  intros Hc Hi Hb. unfold chunk, py_slice, slice_index, samples_between.
  cbv zeta.
  destruct (Z.ltb_spec ((i - 1) * c) 0); [nia|].
  destruct (Z.ltb_spec ((i - 1) * c + c) 0); [nia|].
  replace ((i - 1) * c + c) with (i * c) by lia.
  now rewrite (Z.min_l ((i - 1) * c)) by lia.
Qed.

(** Twenty-five minutes at 16 kHz in chunks of ten minutes: three chunks, of
    ten, ten and five minutes. *)
Example twenty_five_minutes :
  total_chunks 24000000 (chunk_length (inject_Z 10) 16000) = Ok 3 /\
  map (fun i => Z.min (i * 9600000) 24000000 - (i - 1) * 9600000)
      (chunk_indices 3)
  = [9600000; 9600000; 4800000].
Proof. split; reflexivity. Qed.

(** ** The loop over the chunks *)

Lemma chunk_loop_app (wav : list Z) (c : Z) (is1 is2 : list Z)
      (acc : list ndarray) :
  chunk_loop wav c (is1 ++ is2) acc
  = (a <- chunk_loop wav c is1 acc ;; chunk_loop wav c is2 a).
Proof.
  revert acc; induction is1 as [|i is1 IH]; intros acc; simpl.
  - reflexivity.
  - destruct (len (chunk wav c i) <? WL2).
    + apply IH.
    + destruct (enhance (chunk wav c i)); simpl; [apply IH | reflexivity].
Qed.

Lemma chunk_loop_step (wav : list Z) (c i : Z) (rest : list Z)
      (acc : list ndarray) :
  chunk_loop wav c (i :: rest) acc
  = (seg <- segment_for (chunk wav c i) ;;
     chunk_loop wav c rest (acc ++ [seg])).
Proof.
  simpl. unfold segment_for.
  destruct (len (chunk wav c i) <? WL2); [reflexivity|].
  destruct (enhance (chunk wav c i)); reflexivity.
Qed.

Lemma chunk_loop_inv (wav : list Z) (c : Z) (indices : list Z) :
  forall acc segs,
    chunk_loop wav c indices acc = Ok segs ->
    exists new,
      segs = acc ++ new /\
      Forall2 (fun i seg => segment_for (chunk wav c i) = Ok seg)
              indices new.
Proof.
  induction indices as [|i rest IH]; intros acc segs H.
  - simpl in H. injection H as <-. exists []. rewrite app_nil_r.
    split; [reflexivity | constructor].
  - rewrite chunk_loop_step in H.
    destruct (segment_for (chunk wav c i)) as [seg|e] eqn:Hseg;
      simpl in H; [|discriminate].
    destruct (IH _ _ H) as (new & -> & Hall).
    exists (seg :: new). rewrite <- app_assoc. simpl.
    split; [reflexivity | now constructor].
Qed.

Lemma chunk_loop_raises (wav : list Z) (c i : Z) (before after : list Z)
      (acc done : list ndarray) (e : exn) :
  chunk_loop wav c before acc = Ok done ->
  segment_for (chunk wav c i) = Raise e ->
  chunk_loop wav c (before ++ i :: after) acc = Raise e.
Proof.
  intros Hb Hi. rewrite chunk_loop_app, Hb. cbn [bind].
  rewrite chunk_loop_step, Hi. reflexivity.
Qed.

(** C1: a buffer of length [L > 0] with [chunk_length >= 1] is cut into
    exactly [ceil(L / chunk_length)] chunks, visited in the order
    [1, 2, ..., total_chunks]; chunk [i] holds the samples at positions
    [(i-1)*chunk_length <= p < min(i*chunk_length, L)]; every chunk but the
    last has [chunk_length] samples and the last has
    [L - (total_chunks-1)*chunk_length]; the chunks in order concatenate to
    the buffer; and a loop that returns has appended one segment per chunk,
    in that order. *)
Theorem chunks_partition_buffer (wav : list Z) (minutes : Q) (rate : Z) :
  0 < len wav -> 1 <= chunk_length minutes rate ->
  exists n : Z,
    total_chunks (len wav) (chunk_length minutes rate) = Ok n /\
    n = ceil_div (len wav) (chunk_length minutes rate) /\
    (n - 1) * chunk_length minutes rate < len wav
      <= n * chunk_length minutes rate /\
    chunk_indices n = map Z.of_nat (seq 1 (Z.to_nat n)) /\
    (forall i, 1 <= i <= n ->
       chunk wav (chunk_length minutes rate) i
       = samples_between ((i - 1) * chunk_length minutes rate)
                         (Z.min (i * chunk_length minutes rate) (len wav))
                         wav /\
       len (chunk wav (chunk_length minutes rate) i)
       = if i <? n then chunk_length minutes rate
         else len wav - (n - 1) * chunk_length minutes rate) /\
    concat (map (chunk wav (chunk_length minutes rate)) (chunk_indices n))
    = wav /\
    (forall segs,
        chunk_loop wav (chunk_length minutes rate) (chunk_indices n) []
        = Ok segs ->
        len segs = n /\
        segments_of wav (chunk_length minutes rate) n segs).
Proof.
  set (c := chunk_length minutes rate). set (L := len wav).
  intros HL Hc.
  pose proof (ceil_div_bounds L c ltac:(lia)) as Hn.
  exists (ceil_div L c). set (n := ceil_div L c) in *.
  split; [|split; [reflexivity | split; [exact Hn | split; [|split; [|split]]]]].
  - unfold total_chunks. destruct (Z.eqb_spec c 0); [lia | reflexivity].
  - apply chunk_indices_seq.
  - intros i Hi. split.
    + apply chunk_covers; fold L; nia.
    + rewrite chunk_length_eq by lia. fold L.
      destruct (Z.ltb_spec i n); nia.
  - apply chunks_concat; fold L; lia.
  - intros segs Hloop.
    destruct (chunk_loop_inv _ _ _ _ _ Hloop) as (new & -> & Hall).
    simpl. split; [|exact Hall].
    unfold len. rewrite <- (Forall2_length Hall).
    fold (len (chunk_indices n)). unfold chunk_indices.
    rewrite py_range_length. lia.
Qed.

(** What a run of [denoise_samples] that returns has done. *)
Lemma denoise_samples_inv (rate : Z) (wav0 out : list Z) :
  denoise_samples rate wav0 = Ok out ->
  exists wav n segs,
    peak_normalization U wav0 = Ok wav /\
    total_chunks (len wav) (chunk_length (truncate_minutes o) rate) = Ok n /\
    segments_of wav (chunk_length (truncate_minutes o) rate) n segs /\
    out = concat (map astype_int16 segs).
Proof.
  unfold denoise_samples. intros H.
  destruct (peak_normalization U wav0) as [wav|] eqn:Hpn;
    simpl in H; [|discriminate].
  destruct (total_chunks _ _) as [n|] eqn:Hn; simpl in H; [|discriminate].
  destruct (chunk_loop _ _ _ _) as [segs|] eqn:Hloop;
    simpl in H; [|discriminate].
  destruct (chunk_loop_inv _ _ _ _ _ Hloop) as (new & -> & Hall).
  simpl in *. exists wav, n, new. repeat split; try assumption.
  unfold np_concatenate in H.
  destruct (map astype_int16 new); [discriminate | congruence].
Qed.

(** ** The cast to 16 bits *)

Lemma wrap16_spec (v : Z) : int16_wrap_of v (wrap16 v).
Proof.
  unfold int16_wrap_of, wrap16.
  pose proof (Z.mod_pos_bound (v + 32768) 65536 ltac:(lia)).
  split; [lia|].
  exists (- ((v + 32768) / 65536)).
  pose proof (Z.div_mod (v + 32768) 65536 ltac:(lia)). lia.
Qed.

Lemma int16_wrap_unique (v z z' : Z) :
  int16_wrap_of v z -> int16_wrap_of v z' -> z = z'.
Proof. intros [Hr [k ->]] [Hr' [k' ->]]. lia. Qed.

Lemma wrap16_in_range (v : Z) : -32768 <= v <= 32767 -> wrap16 v = v.
Proof.
  intros Hv. apply (int16_wrap_unique v); [apply wrap16_spec|].
  split; [assumption | exists 0; lia].
Qed.

Lemma map_wrap16_in_range (l : list Z) :
  Forall (fun v => -32768 <= v <= 32767) l -> map wrap16 l = l.
Proof.
  induction 1 as [|v l Hv _ IH]; simpl.
  - reflexivity.
  - rewrite wrap16_in_range by exact Hv. now rewrite IH.
Qed.

Lemma Rtrunc_spec (v : R) : truncation_of v (Rtrunc v).
Proof.
  unfold truncation_of, Rtrunc.
  destruct (Rlt_dec v 0) as [Hneg|Hpos]; split; intros Hv; try lra.
  - destruct (base_Int_part (- v)) as [Hlo Hhi].
    rewrite opp_IZR. lra.
  - destruct (base_Int_part v) as [Hlo Hhi]. lra.
Qed.

Lemma fits_int32_iff (z : Z) :
  fits_int32 z = true <-> -2147483648 <= z < 2147483648.
Proof. unfold fits_int32. rewrite andb_true_iff, Z.leb_le, Z.ltb_lt. lia. Qed.

Lemma float_to_int16_spec (v : R) : float_cast_of v (float_to_int16 v).
Proof.
  exists (Rtrunc v). split; [apply Rtrunc_spec|]. unfold float_to_int16.
  destruct (fits_int32 (Rtrunc v)) eqn:Hfit.
  - split; [intros _; apply wrap16_spec|].
    intros Hout. apply fits_int32_iff in Hfit. contradiction.
  - split; [|reflexivity].
    intros Hin. apply fits_int32_iff in Hin. congruence.
Qed.

Lemma astype_int16_spec (x : ndarray) : wrapped_cast_of x (astype_int16 x).
Proof.
  destruct x as [l|l]; simpl; induction l; simpl; constructor;
    auto using wrap16_spec, float_to_int16_spec.
Qed.

Lemma Forall2_nth_error {A B : Type} (P : A -> B -> Prop)
      (l1 : list A) (l2 : list B) :
  Forall2 P l1 l2 ->
  forall k a, nth_error l1 k = Some a ->
              exists b, nth_error l2 k = Some b /\ P a b.
Proof.
  induction 1 as [|x y l1 l2 Hxy _ IH]; intros [|k] a Hk;
    simpl in *; try discriminate.
  - injection Hk as <-. eauto.
  - eauto.
Qed.

Lemma nth_error_cut {A : Type} (l : list A) (k : nat) (a : A) :
  nth_error l k = Some a -> l = firstn k l ++ a :: skipn (S k) l.
Proof.
  revert k; induction l as [|x l IH]; intros [|k] Hk;
    simpl in *; try discriminate.
  - now injection Hk as <-.
  - f_equal. now apply IH.
Qed.

Lemma chunk_indices_nth_error (n i : Z) :
  1 <= i <= n -> nth_error (chunk_indices n) (Z.to_nat (i - 1)) = Some i.
Proof.
  intros Hi. rewrite chunk_indices_seq.
  rewrite nth_error_map, nth_error_seq.
  destruct (Nat.ltb_spec (Z.to_nat (i - 1)) (Z.to_nat n)); [|lia].
  simpl. f_equal. lia.
Qed.

(** X19: a chunk with fewer than 256 samples is appended to [data_se] as it
    is, whatever the feature extractor, the estimator and the
    reconstruction would do with it, and its samples reach the output, at
    the chunk's place, as the 16-bit cast of the corresponding samples of
    the buffer that peak normalisation returned (these samples themselves
    when they fit 16 bits). *)
Theorem short_chunk_passes_through (rate : Z) (wav0 out : list Z) :
  denoise_samples rate wav0 = Ok out ->
  exists wav n segs,
    peak_normalization U wav0 = Ok wav /\
    total_chunks (len wav) (chunk_length (truncate_minutes o) rate) = Ok n /\
    segments_of wav (chunk_length (truncate_minutes o) rate) n segs /\
    forall i,
      1 <= i <= n ->
      len (chunk wav (chunk_length (truncate_minutes o) rate) i) < 256 ->
      let temp := chunk wav (chunk_length (truncate_minutes o) rate) i in
      (forall rest data_se,
          chunk_loop wav (chunk_length (truncate_minutes o) rate)
                     (i :: rest) data_se
          = chunk_loop wav (chunk_length (truncate_minutes o) rate)
                       rest (data_se ++ [IntArr temp])) /\
      nth_error segs (Z.to_nat (i - 1)) = Some (IntArr temp) /\
      out = concat (map astype_int16 (firstn (Z.to_nat (i - 1)) segs))
            ++ map wrap16 temp
            ++ concat (map astype_int16 (skipn (Z.to_nat i) segs)) /\
      (Forall (fun v => -32768 <= v <= 32767) temp ->
       map wrap16 temp = temp).
Proof.
  intros H.
  destruct (denoise_samples_inv _ _ _ H) as (wav & n & segs & Hpn & Hn & Hs & ->).
  exists wav, n, segs. do 3 (split; [assumption|]).
  intros i Hi Hshort temp.
  assert (Hlt : (len temp <? WL2) = true)
    by (apply Z.ltb_lt; change WL2 with 256; exact Hshort).
  destruct (Forall2_nth_error _ _ _ Hs _ _ (chunk_indices_nth_error n i Hi))
    as (seg & Hk & Hseg).
  unfold segment_for in Hseg. fold temp in Hseg. rewrite Hlt in Hseg.
  injection Hseg as <-.
  split; [|split; [exact Hk | split]].
  - intros rest data_se. simpl. fold temp. now rewrite Hlt.
  - rewrite (nth_error_cut _ _ _ Hk) at 1.
    replace (S (Z.to_nat (i - 1))) with (Z.to_nat i) by lia.
    rewrite map_app, concat_app. reflexivity.
  - apply map_wrap16_in_range.
Qed.

Lemma Int_part_between (x : R) (z : Z) :
  (IZR z <= x < IZR z + 1)%R -> Int_part x = z.
Proof. intros H. symmetry. apply Int_part_spec. lra. Qed.

(** The cast of a float that holds an integer is the cast of the integer. *)
Lemma Rtrunc_IZR (z : Z) : Rtrunc (IZR z) = z.
Proof.
  unfold Rtrunc. destruct (Rlt_dec (IZR z) 0) as [Hneg|Hpos].
  - rewrite <- opp_IZR, (Int_part_between (IZR (- z)) (- z)) by lra. lia.
  - apply Int_part_between. lra.
Qed.

Lemma truncation_unique (v : R) (t t' : Z) :
  truncation_of v t -> truncation_of v t' -> t = t'.
Proof.
  intros [Hp Hn] [Hp' Hn'].
  destruct (Rlt_dec v 0) as [Hneg|Hpos].
  - specialize (Hn Hneg). specialize (Hn' Hneg).
    apply eq_IZR. destruct (Z_lt_le_dec t t') as [Hlt|Hge].
    + apply IZR_lt in Hlt. assert (IZR t + 1 <= IZR t')%R; [|lra].
      rewrite <- plus_IZR. apply IZR_le. apply lt_IZR in Hlt. lia.
    + destruct (Z.eq_dec t t') as [->|Hne]; [reflexivity|].
      assert (IZR t' + 1 <= IZR t)%R; [|lra].
      rewrite <- plus_IZR. apply IZR_le. lia.
  - assert (Hv : (0 <= v)%R) by lra.
    specialize (Hp Hv). specialize (Hp' Hv).
    apply eq_IZR. destruct (Z_lt_le_dec t t') as [Hlt|Hge].
    + assert (IZR t + 1 <= IZR t')%R; [|lra].
      rewrite <- plus_IZR. apply IZR_le. lia.
    + destruct (Z.eq_dec t t') as [->|Hne]; [reflexivity|].
      assert (IZR t' + 1 <= IZR t)%R; [|lra].
      rewrite <- plus_IZR. apply IZR_le. lia.
Qed.

Lemma Rtrunc_eq (v : R) (t : Z) : truncation_of v t -> Rtrunc v = t.
Proof. intros H. apply (truncation_unique v); [apply Rtrunc_spec | exact H]. Qed.

(** A reconstructed sample beyond the 16-bit range loses its fraction and
    wraps around. *)
Example float_overflow_wraps :
  astype_int16 (FloatArr [(40000 + / 2)%R; (- 40000 - / 2)%R])
  = [-25536; 25536].
Proof.
  simpl. unfold float_to_int16.
  rewrite (Rtrunc_eq (40000 + / 2) 40000) by (split; intros; lra).
  rewrite (Rtrunc_eq (- 40000 - / 2) (-40000)) by (split; intros; lra).
  reflexivity.
Qed.

(** One beyond the 32-bit range is written as zero. *)
Example float_beyond_32_bits :
  astype_int16 (FloatArr [3000000000%R; (-3000000000)%R]) = [0; 0].
Proof.
  simpl. unfold float_to_int16. rewrite !Rtrunc_IZR. reflexivity.
Qed.

Lemma wrapped_cast_of_all (segs : list ndarray) :
  Forall2 wrapped_cast_of segs (map astype_int16 segs).
Proof.
  induction segs; simpl; constructor; auto using astype_int16_spec.
Qed.

Lemma wrap16_overflow (v : Z) :
  32767 < v < 98303 -> wrap16 v = v - 65536 /\ wrap16 v < clamp16 v.
Proof.
  intros Hv.
  assert (wrap16 v = v - 65536) as ->.
  { apply (int16_wrap_unique v); [apply wrap16_spec|].
    split; [lia | exists (-1); lia]. }
  unfold clamp16. lia.
Qed.

Lemma wrap16_underflow (v : Z) :
  -98304 < v < -32768 -> wrap16 v = v + 65536 /\ clamp16 v < wrap16 v.
Proof.
  intros Hv.
  assert (wrap16 v = v + 65536) as ->.
  { apply (int16_wrap_unique v); [apply wrap16_spec|].
    split; [lia | exists 1; lia]. }
  unfold clamp16. lia.
Qed.

(** C9, as the code has it: when [denoise_wav] returns, the file written
    holds the concatenation, in chunk order, of one piece per chunk
    (passed-through and reconstructed chunks alike), each piece being its
    segment cast sample by sample. An integer sample becomes the 16-bit
    signed integer congruent to it modulo [2^16]. A float sample is
    truncated toward zero; when the truncated value fits 32 bits it becomes
    the 16-bit integer congruent to it modulo [2^16], and when it does not,
    zero. Values beyond the 16-bit range are never clamped to [-32768] or
    [32767]. *)
Theorem assembler_concatenates_and_wraps
        (fs fs' : filesystem) (src dest : string) :
  denoise_wav fs src dest = Ok fs' ->
  exists f wav n segs pieces,
    fs src = Some f /\
    peak_normalization U (samples f) = Ok wav /\
    total_chunks (len wav) (chunk_length (truncate_minutes o) (sr f))
    = Ok n /\
    segments_of wav (chunk_length (truncate_minutes o) (sr f)) n segs /\
    pieces = map astype_int16 segs /\
    Forall2 wrapped_cast_of segs pieces /\
    fs' = wav_io_write fs dest SR (concat pieces) /\
    (forall v, 32767 < v < 98303 ->
               wrap16 v = v - 65536 /\ wrap16 v < clamp16 v) /\
    (forall v, -98304 < v < -32768 ->
               wrap16 v = v + 65536 /\ clamp16 v < wrap16 v).
Proof.
  unfold denoise_wav, wav_io_read. intros H.
  destruct (fs src) as [f|] eqn:Hf; simpl in H; [|discriminate].
  destruct (denoise_samples (sr f) (samples f)) as [out|] eqn:Hout;
    simpl in H; [|discriminate].
  injection H as <-.
  destruct (denoise_samples_inv _ _ _ Hout)
    as (wav & n & segs & Hpn & Hn & Hs & ->).
  exists f, wav, n, segs, (map astype_int16 segs).
  repeat split; auto using wrapped_cast_of_all;
    try (apply wrap16_overflow; assumption);
    apply wrap16_underflow; assumption.
Qed.

(** ** Elementwise arithmetic on feature matrices *)

Lemma zip_with_length {A B C : Type} (f : A -> B -> C) (a : list A) :
  forall b, length (zip_with f a b) = Nat.min (length a) (length b).
Proof.
  induction a as [|x a IH]; intros [|y b]; simpl; auto.
Qed.

Lemma zip_with_nth {A B C : Type} (f : A -> B -> C) (da : A) (db : B)
      (dc : C) (a : list A) :
  forall b k, (k < length a)%nat -> (k < length b)%nat ->
              nth k (zip_with f a b) dc = f (nth k a da) (nth k b db).
Proof.
  induction a as [|x a IH]; intros [|y b] [|k] Ha Hb; simpl in *;
    try lia; auto.
  apply IH; lia.
Qed.

Lemma shape_row (m : matrix) (frames n t : nat) :
  shape m frames n -> (t < frames)%nat -> length (nth t m []) = n.
Proof.
  intros [Hlen Hrows] Ht. rewrite Forall_forall in Hrows.
  apply Hrows, nth_In. lia.
Qed.

Lemma mat_map_shape (f : R -> R) (m : matrix) (frames n : nat) :
  shape m frames n -> shape (mat_map f m) frames n.
Proof.
  intros [Hlen Hrows]. split.
  - unfold mat_map. now rewrite length_map.
  - unfold mat_map. rewrite Forall_map.
    eapply Forall_impl; [|exact Hrows].
    intros row Hrow. simpl in *. now rewrite length_map.
Qed.

Lemma mat_map_entry (f : R -> R) (m : matrix) (frames n t k : nat) :
  shape m frames n -> (t < frames)%nat -> (k < n)%nat ->
  entry (mat_map f m) t k = f (entry m t k).
Proof.
  intros Hm Ht Hk. unfold entry, mat_map.
  rewrite (nth_indep _ [] (map f [])) by (rewrite length_map; destruct Hm; lia).
  rewrite map_nth.
  rewrite (nth_indep _ 0%R (f 0%R))
    by (rewrite length_map, (shape_row m frames n t Hm Ht); exact Hk).
  now rewrite map_nth.
Qed.

Lemma zip_with_Forall {A B C : Type} (f : A -> B -> C)
      (P : A -> Prop) (Q : B -> Prop) (S : C -> Prop) (a : list A) :
  (forall x y, P x -> Q y -> S (f x y)) ->
  Forall P a -> forall b, Forall Q b -> Forall S (zip_with f a b).
Proof.
  intros HS Ha. induction Ha as [|x a Hx _ IH]; intros b Hb; simpl.
  - constructor.
  - destruct Hb as [|y b Hy Hb]; constructor; auto.
Qed.

Lemma mat_zip_shape (f : R -> R -> R) (a b : matrix) (frames n : nat) :
  shape a frames n -> shape b frames n -> shape (mat_zip f a b) frames n.
Proof.
  intros [Hla Hra] [Hlb Hrb]. split.
  - unfold mat_zip. rewrite zip_with_length. lia.
  - unfold mat_zip.
    refine (zip_with_Forall _ _ _ _ a _ Hra b Hrb).
    intros x y Hx Hy. rewrite zip_with_length. lia.
Qed.

Lemma mat_zip_entry (f : R -> R -> R) (a b : matrix) (frames n t k : nat) :
  shape a frames n -> shape b frames n -> (t < frames)%nat -> (k < n)%nat ->
  entry (mat_zip f a b) t k = f (entry a t k) (entry b t k).
Proof.
  intros Ha Hb Ht Hk. unfold entry, mat_zip.
  rewrite (zip_with_nth (zip_with f) [] [] [])
    by (destruct Ha, Hb; lia).
  apply zip_with_nth.
  - now rewrite (shape_row a frames n t Ha Ht).
  - now rewrite (shape_row b frames n t Hb Ht).
Qed.

Lemma mat_row_shape (f : R -> R -> R) (m : matrix) (v : list R)
      (frames n : nat) :
  shape m frames n -> length v = n -> shape (mat_row f m v) frames n.
Proof.
  intros [Hlen Hrows] Hv. split.
  - unfold mat_row. now rewrite length_map.
  - unfold mat_row. rewrite Forall_map.
    eapply Forall_impl; [|exact Hrows].
    intros row Hrow. simpl in *. rewrite zip_with_length. lia.
Qed.

Lemma mat_row_entry (f : R -> R -> R) (m : matrix) (v : list R)
      (frames n t k : nat) :
  shape m frames n -> length v = n -> (t < frames)%nat -> (k < n)%nat ->
  entry (mat_row f m v) t k = f (entry m t k) (nth k v 0%R).
Proof.
  intros Hm Hv Ht Hk. unfold entry, mat_row.
  rewrite (nth_indep _ [] ((fun row => zip_with f row v) []))
    by (rewrite length_map; destruct Hm; lia).
  rewrite (map_nth (fun row => zip_with f row v)).
  apply zip_with_nth.
  - now rewrite (shape_row m frames n t Hm Ht).
  - lia.
Qed.

(** ** Fusion of the estimates (lines 220-235) *)

Lemma segment_for_long (temp : list Z) :
  256 <= len temp ->
  segment_for temp = (w <- enhance temp ;; Ok (FloatArr w)).
Proof.
  intros Hlen. unfold segment_for.
  destruct (Z.ltb_spec (len temp) WL2) as [Hlt|_]; [|reflexivity].
  change WL2 with 256 in Hlt. lia.
Qed.

Lemma enhance_estimated (temp : list Z) (noisy : matrix)
      (est : MaskEstimate) :
  wav2logspec U temp = Ok noisy ->
  run_estimator noisy = Returned (Some est) ->
  enhance temp
  = (recovered <- recovered_lps (mode o) noisy est
                                (global_mean o) (global_var o) ;;
     logspec2wav U recovered temp).
Proof.
  intros Hw Hr. unfold enhance. rewrite Hw. cbn [bind].
  now rewrite Hr.
Qed.

Lemma irm_masked_entry (noisy irm : matrix) (frames n t k : nat) :
  shape noisy frames n -> shape irm frames n ->
  (t < frames)%nat -> (k < n)%nat ->
  entry (irm_masked noisy irm) t k
  = (entry noisy t k + ln (entry irm t k))%R.
Proof.
  intros Hn Hi Ht Hk. unfold irm_masked.
  rewrite (mat_zip_entry _ _ _ frames n) by auto using mat_map_shape.
  now rewrite (mat_map_entry _ _ frames n).
Qed.

Lemma denormalized_entry (lps : matrix) (mean var : list R)
      (frames n t k : nat) :
  shape lps frames n -> length mean = n -> length var = n ->
  (t < frames)%nat -> (k < n)%nat ->
  entry (denormalized lps mean var) t k
  = (entry lps t k * nth k var 0 + nth k mean 0)%R.
Proof.
  intros Hl Hm Hv Ht Hk. unfold denormalized.
  rewrite (mat_row_entry _ _ _ frames n) by auto using mat_row_shape.
  now rewrite (mat_row_entry _ _ _ frames n).
Qed.

Lemma normed_noisy_entry (noisy : matrix) (mean var : list R)
      (frames n t k : nat) :
  shape noisy frames n -> length mean = n -> length var = n ->
  (t < frames)%nat -> (k < n)%nat ->
  entry (normed_noisy noisy mean var) t k
  = ((entry noisy t k - nth k mean 0) / nth k var 0)%R.
Proof.
  intros Hl Hm Hv Ht Hk. unfold normed_noisy.
  rewrite (mat_row_entry _ _ _ frames n) by auto using mat_row_shape.
  now rewrite (mat_row_entry _ _ _ frames n).
Qed.

(** C3: in mode 1, for a chunk of at least 256 samples whose estimate has
    the shape of its feature matrix and IRM values in (0,1], the spectrum
    handed to the reconstruction is [noisy_lps + ln(IRM)], entry by entry,
    [noisy_lps] being the features as extracted (not normalised). *)
Theorem irm_only_adds_log_mask
        (temp : list Z) (noisy : matrix) (est : MaskEstimate)
        (frames n : nat) :
  mode o = 1 ->
  256 <= len temp ->
  wav2logspec U temp = Ok noisy ->
  run_estimator noisy = Returned (Some est) ->
  shape noisy frames n ->
  shape (IRM est) frames n ->
  (forall t k, (t < frames)%nat -> (k < n)%nat ->
               (0 < entry (IRM est) t k <= 1)%R) ->
  exists recovered,
    recovered_lps (mode o) noisy est (global_mean o) (global_var o)
    = Ok recovered /\
    segment_for temp
    = (w <- logspec2wav U recovered temp ;; Ok (FloatArr w)) /\
    shape recovered frames n /\
    forall t k, (t < frames)%nat -> (k < n)%nat ->
                entry recovered t k
                = (entry noisy t k + ln (entry (IRM est) t k))%R.
Proof.
  intros Hmode Hlen Hw Hr Hn Hi _.
  exists (irm_masked noisy (IRM est)).
  assert (Hrec : recovered_lps (mode o) noisy est
                               (global_mean o) (global_var o)
                 = Ok (irm_masked noisy (IRM est)))
    by (unfold recovered_lps; now rewrite Hmode).
  split; [exact Hrec|]. split; [|split].
  - rewrite segment_for_long by exact Hlen.
    now rewrite (enhance_estimated temp noisy est Hw Hr), Hrec.
  - unfold irm_masked. auto using mat_zip_shape, mat_map_shape.
  - intros t k Ht Hk. now apply (irm_masked_entry _ _ frames n).
Qed.

(** C4: in modes 2 and 3, for the 400h and the 1000h model alike, the
    estimator is sent the normalised features [(feature - mean)/variance]
    (400h) or the raw features (1000h), and the LPS it returns enters the
    spectrum handed to the reconstruction as [lps*variance + mean]: alone
    in mode 2, with weight one half in mode 3. *)
Theorem lps_estimate_is_denormalized
        (temp : list Z) (noisy : matrix) (est : MaskEstimate)
        (frames n : nat) :
  mode o = 2 \/ mode o = 3 ->
  lower (model_select o) = "400h"%string
  \/ lower (model_select o) = "1000h"%string ->
  256 <= len temp ->
  wav2logspec U temp = Ok noisy ->
  run_estimator noisy = Returned (Some est) ->
  shape noisy frames n ->
  shape (IRM est) frames n ->
  shape (LPS est) frames n ->
  length (global_mean o) = n ->
  length (global_var o) = n ->
  (exists sent,
      features_written noisy = Some sent /\
      run_estimator noisy
      = decode_model U (Some sent) (len noisy - 1) NFREQS (use_gpu o)
                     (gpu_id o) (mode o) (model_select o) (stage_select o) /\
      (lower (model_select o) = "400h"%string ->
       forall t k, (t < frames)%nat -> (k < n)%nat ->
                   entry sent t k
                   = ((entry noisy t k - nth k (global_mean o) 0)
                      / nth k (global_var o) 0)%R) /\
      (lower (model_select o) = "1000h"%string -> sent = noisy)) /\
  exists recovered,
    recovered_lps (mode o) noisy est (global_mean o) (global_var o)
    = Ok recovered /\
    segment_for temp
    = (w <- logspec2wav U recovered temp ;; Ok (FloatArr w)) /\
    forall t k, (t < frames)%nat -> (k < n)%nat ->
      (mode o = 2 ->
       entry recovered t k
       = (entry (LPS est) t k * nth k (global_var o) 0
          + nth k (global_mean o) 0)%R) /\
      (mode o = 3 ->
       entry recovered t k
       = (half * (entry noisy t k + ln (entry (IRM est) t k))
          + half * (entry (LPS est) t k * nth k (global_var o) 0
                    + nth k (global_mean o) 0))%R).
Proof.
  intros Hmode Hmodel Hlen Hw Hr Hn Hi Hl Hm Hv. split.
  - unfold run_estimator, features_written.
    destruct Hmodel as [H4|H1]; rewrite ?H4, ?H1; simpl String.eqb; cbv iota.
    + eexists. split; [reflexivity|]. split; [reflexivity|]. split.
      * intros _ t k Ht Hk. now apply (normed_noisy_entry _ _ _ frames n).
      * discriminate.
    + eexists. split; [reflexivity|]. split; [reflexivity|]. split.
      * discriminate.
      * reflexivity.
  - assert (Hrec : exists recovered,
               recovered_lps (mode o) noisy est
                             (global_mean o) (global_var o) = Ok recovered)
      by (unfold recovered_lps; destruct Hmode as [-> | ->]; simpl; eauto).
    destruct Hrec as [recovered Hrec]. exists recovered.
    split; [exact Hrec|]. split.
    + rewrite segment_for_long by exact Hlen.
      now rewrite (enhance_estimated temp noisy est Hw Hr), Hrec.
    + intros t k Ht Hk. unfold recovered_lps in Hrec. split; intros Hmd;
        rewrite Hmd in Hrec; simpl in Hrec; injection Hrec as <-.
      * now apply (denormalized_entry _ _ _ frames n).
      * assert (Hs1 : shape (irm_masked noisy (IRM est)) frames n)
          by (unfold irm_masked; auto using mat_zip_shape, mat_map_shape).
        assert (Hs2 : shape (denormalized (LPS est) (global_mean o)
                                          (global_var o)) frames n)
          by (unfold denormalized; auto using mat_row_shape).
        rewrite (mat_zip_entry _ _ _ frames n) by auto using mat_map_shape.
        rewrite !(mat_map_entry _ _ frames n) by assumption.
        rewrite (irm_masked_entry _ _ frames n) by assumption.
        now rewrite (denormalized_entry _ _ _ frames n).
Qed.

(** C5: on the same features, estimate and statistics, the spectrum of
    mode 3 is the entrywise average of the spectra of modes 1 and 2. *)
Theorem blend_is_average_of_modes
        (noisy : matrix) (est : MaskEstimate) (mean var : list R)
        (frames n : nat) :
  shape noisy frames n ->
  shape (IRM est) frames n ->
  shape (LPS est) frames n ->
  length mean = n ->
  length var = n ->
  exists irm_only lps_only blend,
    recovered_lps 1 noisy est mean var = Ok irm_only /\
    recovered_lps 2 noisy est mean var = Ok lps_only /\
    recovered_lps 3 noisy est mean var = Ok blend /\
    shape blend frames n /\
    forall t k, (t < frames)%nat -> (k < n)%nat ->
                entry blend t k
                = ((entry irm_only t k + entry lps_only t k) / 2)%R.
Proof.
  intros Hn Hi Hl Hm Hv.
  assert (Hs1 : shape (irm_masked noisy (IRM est)) frames n)
    by (unfold irm_masked; auto using mat_zip_shape, mat_map_shape).
  assert (Hs2 : shape (denormalized (LPS est) mean var) frames n)
    by (unfold denormalized; auto using mat_row_shape).
  do 3 eexists. split; [reflexivity|]. split; [reflexivity|].
  split; [reflexivity|]. split.
  - auto using mat_zip_shape, mat_map_shape.
  - intros t k Ht Hk.
    rewrite (mat_zip_entry _ _ _ frames n) by auto using mat_map_shape.
    rewrite !(mat_map_entry _ _ frames n) by assumption.
    unfold half. lra.
Qed.

(** ** The loop over the files (lines 270-301) *)

Lemma main_denoising_app (pre post : list string) (src : string)
      (w : world) :
  main_denoising (pre ++ src :: post) w
  = main_denoising post (process_file (main_denoising pre w) src).
Proof. unfold main_denoising. now rewrite fold_left_app. Qed.

Lemma classic_checks (w : world) (src : string) :
  passes_checks (files w) src \/ ~ passes_checks (files w) src.
Proof.
  unfold passes_checks.
  destruct (files w src) as [f|];
    [|right; intros (f & Hf & _); discriminate].
  destruct (is_wav f) eqn:Hw;
    [|right; intros (g & Hg & Hw' & _); injection Hg as <-; congruence].
  destruct (Z.eq_dec (sr f) SR) as [Hs|Hs];
    [|right; intros (g & Hg & _ & Hs' & _); injection Hg as <-; congruence].
  destruct (Z.eq_dec (num_channels f) NUM_CHANNELS) as [Hc|Hc];
    [|right; intros (g & Hg & _ & _ & Hc' & _); injection Hg as <-;
      congruence].
  destruct (Z.eq_dec (bitdepth f) BITDEPTH) as [Hb|Hb];
    [|right; intros (g & Hg & _ & _ & _ & Hb'); injection Hg as <-;
      congruence].
  left. exists f. auto.
Qed.

Lemma process_file_checked (w : world) (src : string) :
  passes_checks (files w) src ->
  process_file w src
  = match denoise_wav (files w) src (dest_of src) with
    | Ok fs => {| files := fs; errors := errors w |}
    | Raise e => utils_error w (problem_message src e)
    end.
Proof.
  intros (f & Hf & Hw & Hs & Hc & Hb). unfold process_file.
  rewrite Hf, Hw, Hs, Hc, Hb. reflexivity.
Qed.

Lemma process_file_unchecked (w : world) (src : string) :
  ~ passes_checks (files w) src ->
  exists m, check_message src m /\ process_file w src = utils_error w m.
Proof.
  intros Hno. unfold process_file, check_message.
  destruct (files w src) as [f|] eqn:Hf; [|eauto 7].
  destruct (is_wav f) eqn:Hw; simpl; [|eauto 7].
  destruct (Z.eqb_spec (sr f) SR) as [Hs|Hs]; simpl; [|eauto 7].
  destruct (Z.eqb_spec (num_channels f) NUM_CHANNELS) as [Hc|Hc]; simpl;
    [|eauto 7].
  destruct (Z.eqb_spec (bitdepth f) BITDEPTH) as [Hb|Hb]; simpl;
    [|eauto 8].
  exfalso. apply Hno. exists f. auto.
Qed.

(** C6: a file of the batch that fails one of the five checks, or whose
    pipeline raises, is skipped: one message is reported (the message of
    the failed check; for an exception the [Problem] message, which carries
    the text of the error only when [verbose] is set), the files are left
    as they were, and the files after it are processed from there. *)
Theorem failing_file_is_skipped
        (pre post : list string) (src : string) (w : world) :
  ~ passes_checks (files (main_denoising pre w)) src
  \/ (exists e, denoise_wav (files (main_denoising pre w)) src (dest_of src)
               = Raise e) ->
  exists m,
    process_file (main_denoising pre w) src
    = utils_error (main_denoising pre w) m /\
    (~ passes_checks (files (main_denoising pre w)) src ->
     check_message src m) /\
    (passes_checks (files (main_denoising pre w)) src ->
     forall e,
       denoise_wav (files (main_denoising pre w)) src (dest_of src)
       = Raise e ->
       m = Problem src (if verbose o then Some (exn_text e) else None)) /\
    files (process_file (main_denoising pre w) src)
    = files (main_denoising pre w) /\
    errors (process_file (main_denoising pre w) src)
    = errors (main_denoising pre w) ++ [m] /\
    main_denoising (pre ++ src :: post) w
    = main_denoising post (utils_error (main_denoising pre w) m).
Proof.
  set (w' := main_denoising pre w). intros Hfail.
  assert (Hstep : exists m,
             process_file w' src = utils_error w' m /\
             (~ passes_checks (files w') src -> check_message src m) /\
             (passes_checks (files w') src ->
              forall e, denoise_wav (files w') src (dest_of src) = Raise e ->
                        m = problem_message src e)).
  { destruct (classic_checks w' src) as [Hp|Hn].
    - destruct Hfail as [Hno|[e He]]; [contradiction|].
      exists (problem_message src e). split; [|split].
      + rewrite (process_file_checked _ _ Hp), He. reflexivity.
      + contradiction.
      + intros _ e' He'. congruence.
    - destruct (process_file_unchecked _ _ Hn) as (m & Hm & Hpf).
      exists m. split; [exact Hpf|]. split; [auto|]. contradiction. }
  destruct Hstep as (m & Hpf & Hc & Hp). exists m.
  split; [exact Hpf|]. split; [exact Hc|]. split; [exact Hp|].
  rewrite main_denoising_app. fold w'. rewrite Hpf.
  repeat split; reflexivity.
Qed.

(** ** The isolated estimator call (lines 93-105, 211-218) *)

(** What line 218 raises when the estimator raised [e], of class [cls],
    with trace [tb]: the instance that [cls] makes of the trace, or what the
    call of [cls] raises. *)
Lemma estimator_error_reraised
      (temp : list Z) (noisy : matrix) (e : exn) (cls : exn_class)
      (tb : string) :
  wav2logspec U temp = Ok noisy ->
  run_estimator noisy = Failed e cls tb ->
  enhance temp = (x <- cls tb ;; Raise x).
Proof.
  intros Hw Hr. unfold enhance. rewrite Hw. cbn [bind]. now rewrite Hr.
Qed.

(** For a class with the constructor and [str] of [BaseException], that is
    an exception of the same class whose text is the trace. *)
Lemma plain_error_reraised
      (temp : list Z) (noisy : matrix) (e : exn) (tb : string) :
  wav2logspec U temp = Ok noisy ->
  run_estimator noisy = Failed e (plain_class (exn_type e)) tb ->
  enhance temp = Raise (mk_exn (exn_type e) tb).
Proof.
  intros Hw Hr. now rewrite (estimator_error_reraised _ _ _ _ _ Hw Hr).
Qed.

(** ** Degenerate chunk lengths and empty buffers *)

Lemma total_chunks_nonpositive (size c n : Z) :
  0 <= size -> c < 0 -> total_chunks size c = Ok n -> n <= 0.
Proof.
  intros Hs Hc. unfold total_chunks, ceil_div.
  destruct (Z.eqb_spec c 0); [lia|]. intros H. injection H as <-.
  pose proof (Z.div_mod (- size) c ltac:(lia)).
  pose proof (Z.mod_neg_bound (- size) c Hc). nia.
Qed.

Lemma chunk_indices_nil (n : Z) : n <= 0 -> chunk_indices n = [].
Proof.
  intros Hn. unfold chunk_indices, py_range.
  now replace (Z.to_nat (n + 1 - 1)) with 0%nat by lia.
Qed.

Lemma denoise_samples_no_chunks (rate : Z) (wav0 wav : list Z) (n : Z) :
  peak_normalization U wav0 = Ok wav ->
  total_chunks (len wav) (chunk_length (truncate_minutes o) rate) = Ok n ->
  n <= 0 ->
  denoise_samples rate wav0 = Raise ValueError_concatenate.
Proof.
  intros Hpn Hn Hle. unfold denoise_samples.
  rewrite Hpn. cbn [bind]. rewrite Hn. cbn [bind].
  now rewrite chunk_indices_nil by exact Hle.
Qed.

Lemma chunk_length_nonneg (minutes : Q) (rate : Z) :
  (0 <= minutes)%Q -> 0 <= rate -> 0 <= chunk_length minutes rate.
Proof.
  intros Hm Hr. unfold chunk_length, int_of_Q.
  apply Z.quot_pos; [|lia].
  destruct minutes as [num den]. unfold Qle in Hm. simpl in *. nia.
Qed.

(** C8, as the code has it: there is no check of [chunk_length]. Once peak
    normalisation has returned, a [chunk_length] of zero (the only value
    below 1 for a [truncate_minutes] that is not negative) makes the
    division that computes [total_chunks] raise [ZeroDivisionError], before
    any chunk. A negative [chunk_length] raises nothing in the scheduler:
    [total_chunks] is zero or less, the loop visits no chunk and returns,
    and [np.concatenate] of the empty list raises [ValueError]. *)
Theorem chunk_length_below_one_raises (rate : Z) (wav0 wav : list Z) :
  chunk_length (truncate_minutes o) rate < 1 ->
  peak_normalization U wav0 = Ok wav ->
  (chunk_length (truncate_minutes o) rate = 0 ->
   total_chunks (len wav) (chunk_length (truncate_minutes o) rate)
   = Raise ZeroDivisionError /\
   denoise_samples rate wav0 = Raise ZeroDivisionError) /\
  (chunk_length (truncate_minutes o) rate < 0 ->
   exists n,
     total_chunks (len wav) (chunk_length (truncate_minutes o) rate)
     = Ok n /\
     n <= 0 /\
     chunk_indices n = [] /\
     chunk_loop wav (chunk_length (truncate_minutes o) rate)
                (chunk_indices n) []
     = Ok [] /\
     denoise_samples rate wav0 = Raise ValueError_concatenate) /\
  ((0 <= truncate_minutes o)%Q -> 0 <= rate ->
   chunk_length (truncate_minutes o) rate = 0).
Proof.
  set (c := chunk_length (truncate_minutes o) rate). intros Hc Hpn.
  split; [|split].
  - intros H0.
    assert (Ht : total_chunks (len wav) c = Raise ZeroDivisionError)
      by (unfold total_chunks; now rewrite H0).
    split; [exact Ht|]. unfold denoise_samples. rewrite Hpn. cbn [bind].
    fold c. now rewrite Ht.
  - intros Hneg.
    destruct (total_chunks (len wav) c) as [n|e] eqn:Hn.
    + assert (Hle : n <= 0)
        by (apply (total_chunks_nonpositive (len wav) c);
            [unfold len; lia | exact Hneg | exact Hn]).
      exists n. split; [reflexivity|]. split; [exact Hle|].
      rewrite (chunk_indices_nil n Hle).
      split; [reflexivity|]. split; [reflexivity|].
      exact (denoise_samples_no_chunks rate wav0 wav n Hpn Hn Hle).
    + unfold total_chunks in Hn.
      destruct (Z.eqb_spec c 0); [lia | discriminate].
  - intros Hpos Hrate.
    pose proof (chunk_length_nonneg (truncate_minutes o) rate Hpos Hrate).
    fold c in H. lia.
Qed.

Lemma denoise_wav_checked (fs : filesystem) (src dest : string)
      (f : wav_file) :
  fs src = Some f ->
  denoise_wav fs src dest
  = (out <- denoise_samples (sr f) (samples f) ;;
     Ok (wav_io_write fs dest SR out)).
Proof. intros Hf. unfold denoise_wav, wav_io_read. now rewrite Hf. Qed.

Lemma skipped_with_intro
      (pre post : list string) (src : string) (w : world) (e : exn) :
  passes_checks (files (main_denoising pre w)) src ->
  denoise_wav (files (main_denoising pre w)) src (dest_of src) = Raise e ->
  skipped_with pre post src w e.
Proof.
  intros Hp Hd. unfold skipped_with.
  assert (Hpf : process_file (main_denoising pre w) src
                = utils_error (main_denoising pre w) (problem_message src e))
    by (now rewrite (process_file_checked _ _ Hp), Hd).
  rewrite main_denoising_app, Hpf. repeat split; try reflexivity.
  exact Hd.
Qed.

(** C10, as the code has it: a file that passes the checks and holds no
    sample is skipped, by one of three exceptions. When peak normalisation
    raises on the empty buffer, by that exception. When it returns the
    empty buffer and [chunk_length] is zero, by the [ZeroDivisionError] of
    the division that computes [total_chunks]. When it returns the empty
    buffer and [chunk_length] is not zero, [total_chunks] is zero, the loop
    visits no chunk, and the exception is the [ValueError] of
    [np.concatenate] on the empty list. Each time the [Problem] message is
    reported, no file is written, and the batch goes on. *)
Theorem empty_file_is_skipped
        (pre post : list string) (src : string) (w : world) (f : wav_file) :
  files (main_denoising pre w) src = Some f ->
  is_wav f = true -> sr f = SR ->
  num_channels f = NUM_CHANNELS -> bitdepth f = BITDEPTH ->
  samples f = [] ->
  (forall e, peak_normalization U [] = Raise e ->
             skipped_with pre post src w e) /\
  (peak_normalization U [] = Ok [] ->
   chunk_length (truncate_minutes o) SR = 0 ->
   total_chunks (len (@nil Z)) (chunk_length (truncate_minutes o) SR)
   = Raise ZeroDivisionError /\
   skipped_with pre post src w ZeroDivisionError) /\
  (peak_normalization U [] = Ok [] ->
   chunk_length (truncate_minutes o) SR <> 0 ->
   total_chunks (len (@nil Z)) (chunk_length (truncate_minutes o) SR)
   = Ok 0 /\
   chunk_indices 0 = [] /\
   chunk_loop [] (chunk_length (truncate_minutes o) SR) (chunk_indices 0) []
   = Ok [] /\
   np_concatenate (map astype_int16 []) = Raise ValueError_concatenate /\
   skipped_with pre post src w ValueError_concatenate).
Proof.
  set (w' := main_denoising pre w).
  intros Hf Hw Hs Hc Hb Hempty.
  assert (Hp : passes_checks (files w') src) by (exists f; auto).
  assert (Hd : denoise_wav (files w') src (dest_of src)
               = (out <- denoise_samples SR [] ;;
                  Ok (wav_io_write (files w') (dest_of src) SR out)))
    by (rewrite (denoise_wav_checked _ _ _ f Hf), Hs, Hempty; reflexivity).
  split; [|split].
  - intros e Hpn. apply skipped_with_intro; [exact Hp|]. fold w'.
    rewrite Hd. unfold denoise_samples. now rewrite Hpn.
  - intros Hpn H0.
    assert (Ht : total_chunks (len (@nil Z))
                              (chunk_length (truncate_minutes o) SR)
                 = Raise ZeroDivisionError)
      by (unfold total_chunks; now rewrite H0).
    split; [exact Ht|]. apply skipped_with_intro; [exact Hp|]. fold w'.
    rewrite Hd. unfold denoise_samples. rewrite Hpn. cbn [bind].
    now rewrite Ht.
  - intros Hpn Hlen.
    assert (Ht : total_chunks (len (@nil Z))
                              (chunk_length (truncate_minutes o) SR) = Ok 0).
    { unfold total_chunks.
      destruct (Z.eqb_spec (chunk_length (truncate_minutes o) SR) 0);
        [contradiction | reflexivity]. }
    repeat (split; [first [exact Ht | reflexivity]|]).
    apply skipped_with_intro; [exact Hp|]. fold w'. rewrite Hd.
    now rewrite (denoise_samples_no_chunks SR [] [] 0 Hpn Ht ltac:(lia)).
Qed.

(** * Further properties of the code *)

(** ** Output paths (line 292-293) *)

Lemma string_app_nil (s : string) : (s ++ "")%string = s.
Proof. induction s as [|c s IH]; simpl; [reflexivity | now rewrite IH]. Qed.

Lemma string_app_assoc (a b c : string) :
  ((a ++ b) ++ c)%string = (a ++ (b ++ c))%string.
Proof. induction a as [|x a IH]; simpl; [reflexivity | now rewrite IH]. Qed.

Lemma no_slash_app (a b : string) :
  no_slash (a ++ b) = no_slash a && no_slash b.
Proof.
  induction a as [|x a IH]; simpl; [reflexivity|].
  rewrite IH. now rewrite andb_assoc.
Qed.

Lemma basename_from_suffix (s : string) :
  forall pre, no_slash pre = true ->
              no_slash (basename_from (pre ++ s) s) = true.
Proof.
  induction s as [|c s IH]; intros pre Hpre; simpl.
  - now rewrite string_app_nil.
  - destruct (Ascii.eqb c slash) eqn:Hc.
    + apply (IH EmptyString). reflexivity.
    + replace (pre ++ String c s)%string
        with ((pre ++ String c EmptyString) ++ s)%string
        by (now rewrite string_app_assoc).
      apply IH. rewrite no_slash_app, Hpre. simpl. now rewrite Hc.
Qed.

Lemma basename_from_clean (s : string) :
  no_slash s = true -> forall acc, basename_from acc s = acc.
Proof.
  induction s as [|c s IH]; simpl; intros Hs acc; [reflexivity|].
  apply andb_prop in Hs. destruct Hs as [Hc Hs].
  apply negb_true_iff in Hc. rewrite Hc. now apply IH.
Qed.

Lemma basename_from_after_slash (a n : string) :
  forall acc, basename_from acc (a ++ String slash n) = basename_from n n.
Proof.
  induction a as [|c a IH]; intros acc; simpl.
  - reflexivity.
  - destruct (Ascii.eqb c slash); apply IH.
Qed.

Lemma basename_after_slash (a n : string) :
  no_slash n = true -> os_path_basename (a ++ String slash n) = n.
Proof.
  intros Hn. unfold os_path_basename.
  rewrite basename_from_after_slash. now apply basename_from_clean.
Qed.

Lemma ends_with_slash_split (d : string) :
  ends_with_slash d = true ->
  exists d', d = (d' ++ String slash EmptyString)%string.
Proof.
  induction d as [|c d IH]; simpl; [discriminate|].
  destruct d as [|c' d].
  - intros Hc. apply Ascii.eqb_eq in Hc. subst c. now exists EmptyString.
  - intros Hd. destruct (IH Hd) as [d' Hd'].
    exists (String c d'). simpl. now rewrite <- Hd'.
Qed.

Lemma basename_join (d n : string) :
  no_slash n = true -> os_path_basename (os_path_join d n) = n.
Proof.
  intros Hn. unfold os_path_join. destruct d as [|c d].
  - unfold os_path_basename. now apply basename_from_clean.
  - destruct (ends_with_slash (String c d)) eqn:Hd.
    + destruct (ends_with_slash_split _ Hd) as [d' ->].
      rewrite string_app_assoc. simpl. now apply basename_after_slash.
    + now apply basename_after_slash.
Qed.

(** X1: [os.path.basename] returns a name without a slash, so the output
    path of any source is [output_dir] joined with a plain file name: every
    output lies directly in [output_dir], whatever directory the source is
    in. *)
Theorem destination_lies_in_output_dir (src : string) :
  no_slash (os_path_basename src) = true /\
  exists name, no_slash name = true /\
               dest_of src = os_path_join (output_dir o) name.
Proof.
  assert (H : no_slash (os_path_basename src) = true)
    by (unfold os_path_basename; apply (basename_from_suffix src EmptyString);
        reflexivity).
  split; [exact H|]. exists (os_path_basename src). now split.
Qed.

(** X2: the destination depends on the file name alone: a source
    [join(d, name)] in any directory [d] goes to [join(output_dir, name)].
    So sources of one name in different directories share a destination,
    and a source that lies in [output_dir] is its own destination. *)
Theorem destination_depends_on_name_only (d name : string) :
  no_slash name = true ->
  os_path_basename (os_path_join d name) = name /\
  dest_of (os_path_join d name) = os_path_join (output_dir o) name /\
  (forall d', dest_of (os_path_join d' name) = dest_of (os_path_join d name)) /\
  dest_of (os_path_join (output_dir o) name) = os_path_join (output_dir o) name.
Proof.
  intros Hn. unfold dest_of.
  repeat split; intros; now rewrite !basename_join by exact Hn.
Qed.

(** ** More on the chunk scheduler (lines 156-173) *)

Lemma single_chunk (wav : list Z) (c : Z) :
  0 < len wav <= c ->
  total_chunks (len wav) c = Ok 1 /\ chunk_indices 1 = [1] /\
  chunk wav c 1 = wav.
Proof.
  intros Hl. split; [|split].
  - unfold total_chunks. destruct (Z.eqb_spec c 0); [lia|].
    f_equal. symmetry. apply ceil_div_unique; lia.
  - reflexivity.
  - rewrite chunk_nonneg by lia. simpl.
    apply firstn_all2. unfold len in Hl. lia.
Qed.

(** X5: a buffer that is not empty and no longer than [chunk_length] is
    processed as one chunk that holds the whole buffer, and the samples
    written are the cast of the one segment made from it. *)
Theorem short_file_is_one_chunk (rate : Z) (wav0 wav : list Z) :
  peak_normalization U wav0 = Ok wav ->
  0 < len wav <= chunk_length (truncate_minutes o) rate ->
  total_chunks (len wav) (chunk_length (truncate_minutes o) rate) = Ok 1 /\
  chunk wav (chunk_length (truncate_minutes o) rate) 1 = wav /\
  denoise_samples rate wav0
  = (seg <- segment_for wav ;; Ok (astype_int16 seg)).
Proof.
  intros Hpn Hl. destruct (single_chunk wav _ Hl) as (Ht & Hi & Hc).
  split; [exact Ht|]. split; [exact Hc|].
  unfold denoise_samples. rewrite Hpn. cbn [bind]. rewrite Ht. cbn [bind].
  rewrite Hi, chunk_loop_step, Hc.
  destruct (segment_for wav) as [seg|e]; [|reflexivity].
  simpl. now rewrite app_nil_r.
Qed.

(** X6: with a [chunk_length] of at least 256 samples, every chunk but the
    last is enhanced, never passed through; the last chunk, which holds the
    remainder [L - (n-1)*chunk_length], is passed through exactly when that
    remainder is below 256 samples. *)
Theorem only_the_last_chunk_can_pass_through (wav : list Z) (c : Z) :
  0 < len wav -> 256 <= c ->
  let n := ceil_div (len wav) c in
  total_chunks (len wav) c = Ok n /\
  (forall i, 1 <= i < n ->
             segment_for (chunk wav c i)
             = (w <- enhance (chunk wav c i) ;; Ok (FloatArr w))) /\
  len (chunk wav c n) = len wav - (n - 1) * c /\
  segment_for (chunk wav c n)
  = if len wav - (n - 1) * c <? 256 then Ok (IntArr (chunk wav c n))
    else w <- enhance (chunk wav c n) ;; Ok (FloatArr w).
Proof.
  intros HL Hc n.
  pose proof (ceil_div_bounds (len wav) c ltac:(lia)) as Hn. fold n in Hn.
  assert (Hlast : len (chunk wav c n) = len wav - (n - 1) * c)
    by (rewrite chunk_length_eq by nia; nia).
  split; [|split; [|split; [exact Hlast|]]].
  - unfold total_chunks. destruct (Z.eqb_spec c 0); [lia | reflexivity].
  - intros i Hi. apply segment_for_long.
    rewrite chunk_length_eq by lia. nia.
  - unfold segment_for. rewrite Hlast. reflexivity.
Qed.

Lemma chunk_loop_all_short (wav : list Z) (c : Z) (indices : list Z) :
  (forall i, In i indices -> len (chunk wav c i) < 256) ->
  forall acc,
    chunk_loop wav c indices acc
    = Ok (acc ++ map (fun i => IntArr (chunk wav c i)) indices).
Proof.
  induction indices as [|i rest IH]; intros Hall acc; simpl.
  - now rewrite app_nil_r.
  - destruct (Z.ltb_spec (len (chunk wav c i)) WL2) as [_|Hge].
    + rewrite IH by (intros j Hj; apply Hall; now right).
      now rewrite <- app_assoc.
    + specialize (Hall i (or_introl eq_refl)). change WL2 with 256 in Hge.
      lia.
Qed.

Lemma chunk_indices_range (n i : Z) : In i (chunk_indices n) -> 1 <= i <= n.
Proof.
  rewrite chunk_indices_seq, in_map_iff. intros (k & <- & Hk).
  apply in_seq in Hk. lia.
Qed.

(** X7: when [chunk_length] is below 256 samples, or the whole buffer is,
    no chunk is ever enhanced: whatever the mode, the model and the
    estimator, the samples written are the peak-normalised samples, each
    cast to 16 bits, as many as were read from the normaliser. *)
Theorem nothing_is_enhanced_below_one_frame (rate : Z) (wav0 wav : list Z) :
  peak_normalization U wav0 = Ok wav ->
  0 < len wav ->
  1 <= chunk_length (truncate_minutes o) rate ->
  chunk_length (truncate_minutes o) rate < 256 \/ len wav < 256 ->
  denoise_samples rate wav0 = Ok (map wrap16 wav) /\
  len (map wrap16 wav) = len wav.
Proof.
  set (c := chunk_length (truncate_minutes o) rate).
  intros Hpn HL Hc Hshort. split; [|unfold len; now rewrite length_map].
  pose proof (ceil_div_bounds (len wav) c ltac:(lia)) as Hn.
  unfold denoise_samples. rewrite Hpn. cbn [bind]. fold c.
  unfold total_chunks. destruct (Z.eqb_spec c 0); [lia|]. cbn [bind].
  rewrite chunk_loop_all_short.
  - simpl. rewrite map_map. simpl.
    assert (Hne : chunk_indices (ceil_div (len wav) c) <> []).
    { rewrite chunk_indices_seq.
      destruct (Z.to_nat (ceil_div (len wav) c)) eqn:Hz; [nia | discriminate]. }
    unfold np_concatenate.
    destruct (map _ (chunk_indices (ceil_div (len wav) c))) eqn:Hm.
    + apply map_eq_nil in Hm. contradiction.
    + rewrite <- Hm.
      rewrite <- (map_map (chunk wav c) (map wrap16)), <- concat_map.
      now rewrite chunks_concat by lia.
  - intros i Hi. apply chunk_indices_range in Hi.
    rewrite chunk_length_eq by lia.
    assert (0 <= (i - 1) * c) by nia. lia.
Qed.

(** ** Temporary directories (lines 161, 236-237) *)

Lemma rmtree_fresh (s : tmp_dirs) :
  Forall (fun d => (d < made s)%nat) (live s) ->
  live (shutil_rmtree (fst (mkdtemp s)) (snd (mkdtemp s))) = live s.
Proof.
  intros Hs. simpl. destruct (Nat.eq_dec (made s) (made s)); [|contradiction].
  apply notin_remove. intros Hin. rewrite Forall_forall in Hs.
  specialize (Hs _ Hin). lia.
Qed.

(** X8: the loop leaves no temporary directory behind: when the directories
    that exist were all made earlier, then after the loop, whether it
    returned or a chunk raised, exactly the same directories exist as
    before it; one directory was made per chunk visited, at most one per
    index; and what the loop returns or raises is not affected by them. *)
Theorem loop_leaves_no_tmp_dir
        (wav : list Z) (c : Z) (indices : list Z) :
  forall (data_se : list ndarray) (s : tmp_dirs),
    Forall (fun d => (d < made s)%nat) (live s) ->
    fst (chunk_loop_tmp wav c indices data_se s)
    = chunk_loop wav c indices data_se /\
    live (snd (chunk_loop_tmp wav c indices data_se s)) = live s /\
    (made s <= made (snd (chunk_loop_tmp wav c indices data_se s))
     <= made s + length indices)%nat /\
    ((exists out, chunk_loop wav c indices data_se = Ok out) ->
     made (snd (chunk_loop_tmp wav c indices data_se s))
     = (made s + length indices)%nat).
Proof.
  induction indices as [|i rest IH]; intros data_se s Hs.
  - simpl. repeat split; lia.
  - pose proof (rmtree_fresh s Hs) as Hlive.
    set (s' := shutil_rmtree (fst (mkdtemp s)) (snd (mkdtemp s))) in *.
    assert (Hmade : made s' = S (made s)) by reflexivity.
    assert (Hs' : Forall (fun d => (d < made s')%nat) (live s')).
    { rewrite Hlive, Hmade. eapply Forall_impl; [|exact Hs].
      simpl. intros d Hd. lia. }
    rewrite chunk_loop_step.
    change (chunk_loop_tmp wav c (i :: rest) data_se s)
      with (match segment_for (chunk wav c i) with
            | Ok x => chunk_loop_tmp wav c rest (data_se ++ [x]) s'
            | Raise e => (Raise e, s')
            end).
    destruct (segment_for (chunk wav c i)) as [seg|e]; cbn [bind].
    + destruct (IH (data_se ++ [seg]) s' Hs') as (Hr & Hl & Hm & Hok).
      simpl length. split; [exact Hr|]. split; [congruence|].
      split; [lia|]. intros Hex. rewrite (Hok Hex). lia.
    + simpl. split; [reflexivity|]. split; [exact Hlive|].
      split; [lia|]. intros [out Hout]. discriminate.
Qed.

(** ** What processing a file changes (lines 238-240, 290-301) *)

Lemma wav_io_write_same (fs : filesystem) (dest : string) (rate : Z)
      (data : list Z) :
  wav_io_write fs dest rate data dest
  = Some {| is_wav := true; sr := rate; num_channels := 1; bitdepth := 16;
            samples := data |}.
Proof. unfold wav_io_write. now rewrite String.eqb_refl. Qed.




Lemma process_file_written (w : world) (src : string) (fs' : filesystem) :
  passes_checks (files w) src ->
  denoise_wav (files w) src (dest_of src) = Ok fs' ->
  exists f out,
    files w src = Some f /\
    denoise_samples SR (samples f) = Ok out /\
    process_file w src
    = {| files := wav_io_write (files w) (dest_of src) SR out;
         errors := errors w |}.
Proof.
  intros Hp Hd. rewrite (process_file_checked _ _ Hp), Hd.
  destruct Hp as (f & Hf & _ & Hs & _).
  rewrite (denoise_wav_checked _ _ _ f Hf), Hs in Hd.
  destruct (denoise_samples SR (samples f)) as [out|] eqn:Hout;
    simpl in Hd; [|discriminate].
  injection Hd as <-. exists f, out. auto.
Qed.


Lemma process_file_reports (w : world) (src : string) :
  errors (process_file w src) = errors w
  \/ exists m, message_file m = src /\
               errors (process_file w src) = errors w ++ [m].
Proof.
  destruct (classic_checks w src) as [Hc|Hn].
  - rewrite (process_file_checked _ _ Hc).
    destruct (denoise_wav (files w) src (dest_of src)) as [fs'|e].
    + now left.
    + right. exists (problem_message src e). now split.
  - destruct (process_file_unchecked _ _ Hn) as (m & Hm & ->).
    right. exists m. split; [|reflexivity].
    destruct Hm as [-> | [-> | [-> | [-> | ->]]]]; reflexivity.
Qed.


(** X10: enhancing into the directory of the sources replaces them: when
    the source is [join(output_dir, name)] and its processing succeeds, the
    source path itself holds the enhanced samples afterwards. *)
Theorem source_in_output_dir_is_replaced
        (w : world) (name : string) (fs' : filesystem) :
  no_slash name = true ->
  passes_checks (files w) (os_path_join (output_dir o) name) ->
  denoise_wav (files w) (os_path_join (output_dir o) name)
              (dest_of (os_path_join (output_dir o) name)) = Ok fs' ->
  exists f out,
    files w (os_path_join (output_dir o) name) = Some f /\
    denoise_samples SR (samples f) = Ok out /\
    files (process_file w (os_path_join (output_dir o) name))
          (os_path_join (output_dir o) name)
    = Some {| is_wav := true; sr := 16000; num_channels := 1;
              bitdepth := 16; samples := out |}.
Proof.
  intros Hn Hp Hd.
  destruct (process_file_written _ _ _ Hp Hd) as (f & out & Hf & Hout & Hw).
  exists f, out. split; [exact Hf|]. split; [exact Hout|].
  rewrite Hw. simpl. unfold dest_of. rewrite basename_join by exact Hn.
  apply wav_io_write_same.
Qed.


(** X12: a batch only appends to the messages: the earlier ones stay, at
    most one is added per file, and each one added is about a file of the
    batch. *)
Theorem batch_reports_at_most_once_per_file (wav_files : list string) :
  forall w,
  exists added,
    errors (main_denoising wav_files w) = errors w ++ added /\
    (length added <= length wav_files)%nat /\
    Forall (fun m => In (message_file m) wav_files) added.
Proof.
  unfold main_denoising.
  induction wav_files as [|src rest IH]; intros w; simpl.
  - exists []. rewrite app_nil_r. repeat split; [simpl; lia | constructor].
  - destruct (IH (process_file w src)) as (added & He & Hl & Hin).
    assert (Hin' : Forall (fun m => src = message_file m
                                    \/ In (message_file m) rest) added)
      by (eapply Forall_impl; [|exact Hin]; simpl; auto).
    destruct (process_file_reports w src) as [Hsame | (m & Hm & Hone)].
    + exists added. rewrite He, Hsame. repeat split; [lia | exact Hin'].
    + exists (m :: added). rewrite He, Hone, <- app_assoc.
      repeat split; [simpl; lia|]. constructor; [now left | exact Hin'].
Qed.

(** ** Failures in the first chunk, seen from the batch *)

Lemma first_chunk_raises (rate : Z) (wav0 wav : list Z) (e : exn) :
  peak_normalization U wav0 = Ok wav ->
  1 <= chunk_length (truncate_minutes o) rate ->
  256 <= len (chunk wav (chunk_length (truncate_minutes o) rate) 1) ->
  enhance (chunk wav (chunk_length (truncate_minutes o) rate) 1) = Raise e ->
  denoise_samples rate wav0 = Raise e.
Proof.
  set (c := chunk_length (truncate_minutes o) rate).
  intros Hpn Hc Hlen He.
  assert (HL : 256 <= len wav)
    by (rewrite chunk_length_eq in Hlen by lia; lia).
  pose proof (ceil_div_bounds (len wav) c ltac:(lia)) as Hn.
  unfold denoise_samples. rewrite Hpn. cbn [bind]. fold c.
  unfold total_chunks. destruct (Z.eqb_spec c 0); [lia|]. cbn [bind].
  rewrite chunk_indices_seq.
  destruct (Z.to_nat (ceil_div (len wav) c)) eqn:Hz; [nia|].
  cbn [seq map]. change (Z.of_nat 1) with 1.
  rewrite chunk_loop_step, segment_for_long, He by exact Hlen.
  reflexivity.
Qed.

Lemma process_file_first_chunk_raises
      (w : world) (src : string) (f : wav_file) (wav : list Z) (e : exn) :
  files w src = Some f ->
  is_wav f = true -> sr f = SR ->
  num_channels f = NUM_CHANNELS -> bitdepth f = BITDEPTH ->
  peak_normalization U (samples f) = Ok wav ->
  1 <= chunk_length (truncate_minutes o) SR ->
  256 <= len (chunk wav (chunk_length (truncate_minutes o) SR) 1) ->
  enhance (chunk wav (chunk_length (truncate_minutes o) SR) 1) = Raise e ->
  process_file w src = utils_error w (problem_message src e).
Proof.
  intros Hf Hw Hs Hc Hb Hpn Hlen H256 He.
  rewrite process_file_checked by (exists f; auto).
  rewrite (denoise_wav_checked _ _ _ f Hf), Hs.
  now rewrite (first_chunk_raises SR (samples f) wav e Hpn Hlen H256 He).
Qed.

(** X13: with a [mode] other than 1, 2 and 3, a chunk that reaches the
    estimator fails after the estimator has answered, because no arm binds
    [recovered_lps]; a file whose first chunk has 256 samples or more is
    then skipped with the [Problem] message, and nothing is written. *)
Theorem unsupported_mode_skips_the_file
        (w : world) (src : string) (f : wav_file) (wav : list Z)
        (noisy : matrix) (est : MaskEstimate) :
  files w src = Some f ->
  is_wav f = true -> sr f = SR ->
  num_channels f = NUM_CHANNELS -> bitdepth f = BITDEPTH ->
  mode o <> 1 -> mode o <> 2 -> mode o <> 3 ->
  peak_normalization U (samples f) = Ok wav ->
  1 <= chunk_length (truncate_minutes o) SR ->
  256 <= len (chunk wav (chunk_length (truncate_minutes o) SR) 1) ->
  wav2logspec U (chunk wav (chunk_length (truncate_minutes o) SR) 1)
  = Ok noisy ->
  run_estimator noisy = Returned (Some est) ->
  enhance (chunk wav (chunk_length (truncate_minutes o) SR) 1)
  = Raise UnboundLocalError_recovered_lps /\
  process_file w src
  = utils_error
      w (Problem src
                 (if verbose o
                  then Some (exn_text UnboundLocalError_recovered_lps)
                  else None)) /\
  files (process_file w src) = files w.
Proof.
  intros Hf Hw Hs Hc Hb H1 H2 H3 Hpn Hlen H256 Hlog Hest.
  assert (He : enhance (chunk wav (chunk_length (truncate_minutes o) SR) 1)
               = Raise UnboundLocalError_recovered_lps).
  { rewrite (enhance_estimated _ noisy est Hlog Hest).
    unfold recovered_lps.
    destruct (Z.eqb_spec (mode o) 1); [contradiction|].
    destruct (Z.eqb_spec (mode o) 2); [contradiction|].
    destruct (Z.eqb_spec (mode o) 3); [contradiction|]. reflexivity. }
  split; [exact He|].
  rewrite (process_file_first_chunk_raises w src f wav _
             Hf Hw Hs Hc Hb Hpn Hlen H256 He).
  split; reflexivity.
Qed.


(** ** The length of the output (lines 166-172, 232-239) *)

Lemma enhance_returns_reconstruction (temp : list Z) (w : list R) :
  enhance temp = Ok w ->
  exists recovered, logspec2wav U recovered temp = Ok w.
Proof.
  unfold enhance. destruct (wav2logspec U temp) as [noisy|]; [|discriminate].
  cbn [bind].
  destruct (run_estimator noisy) as [[est|]|e cls tb|[est|]]; simpl;
    try discriminate.
  - destruct (recovered_lps _ _ _ _ _) as [recovered|]; simpl;
      [|discriminate].
    intros H. now exists recovered.
  - destruct (cls tb); discriminate.
  - destruct (recovered_lps _ _ _ _ _) as [recovered|]; simpl;
      [|discriminate].
    intros H. now exists recovered.
Qed.

Lemma segment_keeps_length (temp : list Z) (seg : ndarray) :
  (forall recovered t w,
      logspec2wav U recovered t = Ok w -> length w = length t) ->
  segment_for temp = Ok seg -> length (astype_int16 seg) = length temp.
Proof.
  intros Hrec. unfold segment_for.
  destruct (len temp <? WL2).
  - intros H. injection H as <-. simpl. now rewrite length_map.
  - destruct (enhance temp) as [w|] eqn:Hw; simpl; [|discriminate].
    intros H. injection H as <-. simpl. rewrite length_map.
    destruct (enhance_returns_reconstruction _ _ Hw) as [recovered Hr].
    exact (Hrec _ _ _ Hr).
Qed.

Lemma denoise_samples_some_chunk (rate : Z) (wav0 wav out : list Z) :
  peak_normalization U wav0 = Ok wav ->
  denoise_samples rate wav0 = Ok out ->
  1 <= chunk_length (truncate_minutes o) rate /\ 0 < len wav.
Proof.
  set (c := chunk_length (truncate_minutes o) rate). intros Hpn Hout.
  destruct (total_chunks (len wav) c) as [n|e] eqn:Hn.
  - destruct (Z_le_gt_dec n 0) as [Hle|Hgt].
    + rewrite (denoise_samples_no_chunks rate wav0 wav n Hpn Hn Hle) in Hout.
      discriminate.
    + unfold total_chunks in Hn. destruct (Z.eqb_spec c 0); [discriminate|].
      injection Hn as Hn.
      destruct (Z_lt_le_dec c 0) as [Hneg|Hpos].
      * assert (n <= 0); [|lia].
        apply (total_chunks_nonpositive (len wav) c);
          [unfold len; lia | exact Hneg |].
        unfold total_chunks. destruct (Z.eqb_spec c 0); [lia | now f_equal].
      * split; [lia|].
        pose proof (ceil_div_bounds (len wav) c ltac:(lia)).
        assert (0 <= len wav) by (unfold len; lia). nia.
  - unfold denoise_samples in Hout. rewrite Hpn in Hout. cbn [bind] in Hout.
    fold c in Hout. rewrite Hn in Hout. discriminate.
Qed.

(** X16: when the reconstruction returns as many samples as the chunk it is
    given, a file that completes is written with exactly as many samples as
    the peak-normalised buffer holds: no sample is lost or added at the
    chunk boundaries or by the passed-through tail. *)
Theorem output_has_the_length_of_the_buffer
        (rate : Z) (wav0 wav out : list Z) :
  (forall recovered t w,
      logspec2wav U recovered t = Ok w -> length w = length t) ->
  peak_normalization U wav0 = Ok wav ->
  denoise_samples rate wav0 = Ok out ->
  length out = length wav.
Proof.
  intros Hrec Hpn Hout.
  destruct (denoise_samples_some_chunk _ _ _ _ Hpn Hout) as [Hc HL].
  destruct (denoise_samples_inv _ _ _ Hout)
    as (wav' & n & segs & Hpn' & Hn & Hs & ->).
  rewrite Hpn in Hpn'. injection Hpn' as <-.
  set (c := chunk_length (truncate_minutes o) rate) in *.
  assert (Hlen : length (concat (map astype_int16 segs))
                 = length (concat (map (chunk wav c) (chunk_indices n)))).
  { unfold segments_of in Hs.
    set (indices := chunk_indices n) in *. clearbody indices. clear Hout.
    induction Hs as [|i seg idx segs Hi _ IH]; simpl; [reflexivity|].
    rewrite !length_app, IH. f_equal.
    exact (segment_keeps_length _ _ Hrec Hi). }
  rewrite Hlen. f_equal. apply chunks_concat; [lia|].
  unfold total_chunks in Hn. destruct (Z.eqb_spec c 0); [lia|].
  injection Hn as <-. apply ceil_div_bounds. lia.
Qed.

(** ** The arithmetic of the fusion (lines 187, 224-227) *)

(** X17: a mask with values in (0,1] only attenuates: in mode 1 no entry of
    the recovered spectrum exceeds the entry of the noisy spectrum, and
    where the mask is 1 the entry is unchanged. *)
Theorem irm_only_never_amplifies
        (noisy : matrix) (est : MaskEstimate) (mean var : list R)
        (frames n : nat) :
  shape noisy frames n ->
  shape (IRM est) frames n ->
  (forall t k, (t < frames)%nat -> (k < n)%nat ->
               (0 < entry (IRM est) t k <= 1)%R) ->
  exists recovered,
    recovered_lps 1 noisy est mean var = Ok recovered /\
    forall t k, (t < frames)%nat -> (k < n)%nat ->
      (entry recovered t k <= entry noisy t k)%R /\
      (entry (IRM est) t k = 1%R -> entry recovered t k = entry noisy t k).
Proof.
  intros Hn Hi Hrange. eexists. split; [reflexivity|].
  intros t k Ht Hk. rewrite (irm_masked_entry _ _ frames n) by assumption.
  destruct (Hrange t k Ht Hk) as [Hpos Hle]. split.
  - destruct Hle as [Hlt | ->].
    + pose proof (ln_increasing _ _ Hpos Hlt) as Hln. rewrite ln_1 in Hln.
      lra.
    + rewrite ln_1. lra.
  - intros ->. rewrite ln_1. lra.
Qed.

End Pipeline.

(** The witness of C1: five samples cut by a chunk length of two. *)
Lemma chunks_partition_buffer_witness :
  exists n : Z,
    total_chunks (len [1; 2; 3; 4; 5])
                 (chunk_length (1 # 480000) 16000) = Ok n /\
    (n - 1) * chunk_length (1 # 480000) 16000 < len [1; 2; 3; 4; 5]
      <= n * chunk_length (1 # 480000) 16000 /\
    concat (map (chunk [1; 2; 3; 4; 5] (chunk_length (1 # 480000) 16000))
                (chunk_indices n))
    = [1; 2; 3; 4; 5].
Proof.
  destruct (chunks_partition_buffer
              Sample.estimator_ok
              (Sample.settings (1 # 480000) 1 "1000h" false)
              [1; 2; 3; 4; 5] (1 # 480000) 16000)
    as (n & Hn & _ & Hceil & _ & _ & Hcat & _).
  - reflexivity.
  - vm_compute. discriminate.
  - exists n. repeat split; try assumption; apply Hceil.
Defined.

(** The witness of X19: a file of two samples is one short chunk. *)
Lemma short_chunk_passes_through_witness :
  denoise_samples Sample.estimator_ok
                  (Sample.settings (inject_Z 10) 1 "1000h" false)
                  16000 [1; 2] = Ok [1; 2] /\
  exists wav n segs,
    peak_normalization Sample.estimator_ok [1; 2] = Ok wav /\
    total_chunks (len wav) (chunk_length (inject_Z 10) 16000) = Ok n /\
    segments_of Sample.estimator_ok
                (Sample.settings (inject_Z 10) 1 "1000h" false)
                wav (chunk_length (inject_Z 10) 16000) n segs.
Proof.
  split; [reflexivity|].
  destruct (short_chunk_passes_through
              Sample.estimator_ok
              (Sample.settings (inject_Z 10) 1 "1000h" false)
              16000 [1; 2] [1; 2] eq_refl)
    as (wav & n & segs & Hpn & Hn & Hs & _).
  exists wav, n, segs. auto.
Defined.

(** The witness of C9. *)
Lemma assembler_concatenates_and_wraps_witness :
  denoise_wav Sample.estimator_ok
              (Sample.settings (inject_Z 10) 1 "1000h" false)
              Sample.disk "in/short.wav" "out/short.wav"
  = Ok (wav_io_write Sample.disk "out/short.wav" SR [1; 2]) /\
  exists segs,
    Forall2 wrapped_cast_of segs (map astype_int16 segs) /\
    wav_io_write Sample.disk "out/short.wav" SR [1; 2]
    = wav_io_write Sample.disk "out/short.wav" SR
                   (concat (map astype_int16 segs)).
Proof.
  split; [reflexivity|].
  destruct (assembler_concatenates_and_wraps
              Sample.estimator_ok
              (Sample.settings (inject_Z 10) 1 "1000h" false)
              Sample.disk _ "in/short.wav" "out/short.wav" eq_refl)
    as (f & wav & n & segs & pieces & _ & _ & _ & _ & -> & Hc & Hw & _).
  exists segs. split; assumption.
Defined.

(** C9 as stated fails: lines 238-239 applied to one reconstructed segment
    that holds the sample 3000000000.0 give the sample 0, which is not
    3000000000 taken modulo [2^16] into the signed range (that is 24064). *)
Lemma float_beyond_32_bits_is_not_wrapped :
  np_concatenate (map astype_int16 [FloatArr [3000000000%R]]) = Ok [0] /\
  wrap16 3000000000 = 24064 /\
  ~ int16_wrap_of 3000000000 0.
Proof.
  split; [|split].
  - simpl. unfold float_to_int16. rewrite Rtrunc_IZR. reflexivity.
  - reflexivity.
  - intros [_ [k Hk]]. lia.
Qed.

(** The witness of C3: one frame, one bin, a mask of one. *)
Lemma irm_only_adds_log_mask_witness :
  exists recovered,
    recovered_lps 1 [[0%R]] Sample.estimate [0%R] [1%R] = Ok recovered /\
    entry recovered 0 0
    = (entry [[0%R]] 0 0 + ln (entry (IRM Sample.estimate) 0 0))%R.
Proof.
  destruct (irm_only_adds_log_mask
              Sample.estimator_ok
              (Sample.settings (inject_Z 10) 1 "1000h" false)
              Sample.frame [[0%R]] Sample.estimate 1 1)
    as (recovered & Hrec & _ & _ & Hentry).
  - reflexivity.
  - vm_compute. discriminate.
  - reflexivity.
  - reflexivity.
  - split; [reflexivity | repeat constructor].
  - split; [reflexivity | repeat constructor].
  - intros [|t] [|k] Ht Hk; try lia. unfold entry. simpl. lra.
  - exists recovered. split; [exact Hrec | apply Hentry; lia].
Defined.

(** The witness of C4: mode 2 and the model name in capitals. *)
Lemma lps_estimate_is_denormalized_witness :
  exists recovered,
    recovered_lps 2 [[0%R]] Sample.estimate [0%R] [1%R] = Ok recovered /\
    entry recovered 0 0
    = (entry (LPS Sample.estimate) 0 0 * nth 0 [1%R] 0 + nth 0 [0%R] 0)%R.
Proof.
  destruct (lps_estimate_is_denormalized
              Sample.estimator_ok
              (Sample.settings (inject_Z 10) 2 "400H" false)
              Sample.frame [[0%R]] Sample.estimate 1 1)
    as (_ & recovered & Hrec & _ & Hentry).
  - left. reflexivity.
  - left. reflexivity.
  - vm_compute. discriminate.
  - reflexivity.
  - reflexivity.
  - split; [reflexivity | repeat constructor].
  - split; [reflexivity | repeat constructor].
  - split; [reflexivity | repeat constructor].
  - reflexivity.
  - reflexivity.
  - exists recovered. split; [exact Hrec|].
    apply (Hentry 0%nat 0%nat); [lia | lia | reflexivity].
Defined.

(** The witness of C5. *)
Lemma blend_is_average_of_modes_witness :
  exists irm_only lps_only blend,
    recovered_lps 1 [[0%R]] Sample.estimate [0%R] [1%R] = Ok irm_only /\
    recovered_lps 2 [[0%R]] Sample.estimate [0%R] [1%R] = Ok lps_only /\
    recovered_lps 3 [[0%R]] Sample.estimate [0%R] [1%R] = Ok blend /\
    entry blend 0 0 = ((entry irm_only 0 0 + entry lps_only 0 0) / 2)%R.
Proof.
  destruct (blend_is_average_of_modes
              [[0%R]] Sample.estimate [0%R] [1%R] 1 1)
    as (a & b & c & Ha & Hb & Hc & _ & Havg).
  - split; [reflexivity | repeat constructor].
  - split; [reflexivity | repeat constructor].
  - split; [reflexivity | repeat constructor].
  - reflexivity.
  - reflexivity.
  - exists a, b, c. repeat split; try assumption. apply Havg; lia.
Defined.

(** The witness of C6: a file at 8000 Hz ahead of a good one. *)
Lemma failing_file_is_skipped_witness :
  exists m,
    process_file Sample.estimator_ok
                 (Sample.settings (inject_Z 10) 1 "1000h" false)
                 Sample.start "in/8k.wav"
    = utils_error Sample.start m /\
    main_denoising Sample.estimator_ok
                   (Sample.settings (inject_Z 10) 1 "1000h" false)
                   ["in/8k.wav"; "in/short.wav"]%string Sample.start
    = main_denoising Sample.estimator_ok
                     (Sample.settings (inject_Z 10) 1 "1000h" false)
                     ["in/short.wav"%string] (utils_error Sample.start m).
Proof.
  destruct (failing_file_is_skipped
              Sample.estimator_ok
              (Sample.settings (inject_Z 10) 1 "1000h" false)
              [] ["in/short.wav"%string] "in/8k.wav" Sample.start)
    as (m & Hstep & _ & _ & _ & _ & Hnext).
  - left. intros (f & Hf & _ & Hsr & _).
    vm_compute in Hf. injection Hf as <-. vm_compute in Hsr. discriminate.
  - exists m. split; [exact Hstep | exact Hnext].
Defined.

(** C7: the estimator raises a [UnicodeDecodeError] in the child process.
    The pair of the exception and its trace reaches the parent, but line
    218 then calls [UnicodeDecodeError] with the trace alone, which its
    constructor refuses: the caller sees a [TypeError] about the number of
    arguments, neither the type of the original error nor its trace. *)
Theorem unicode_decode_error_is_not_reraised :
  run_estimator Sample.estimator_fails_decoding
                (Sample.settings (inject_Z 10) 1 "1000h" true) [[0%R]]
  = Failed (mk_exn "UnicodeDecodeError"
                   "'utf8' codec can't decode byte 0xff in position 0")
           UnicodeDecodeError_class
           "Traceback (most recent call last): UnicodeDecodeError" /\
  fst (Process_exception
         (Process_run
            (run_estimator Sample.estimator_fails_decoding
                           (Sample.settings (inject_Z 10) 1 "1000h" true)
                           [[0%R]])
            Process_init))
  = Some (mk_exn "UnicodeDecodeError"
                 "'utf8' codec can't decode byte 0xff in position 0",
          UnicodeDecodeError_class,
          "Traceback (most recent call last): UnicodeDecodeError"%string) /\
  enhance Sample.estimator_fails_decoding
          (Sample.settings (inject_Z 10) 1 "1000h" true) Sample.frame
  = Raise (mk_exn "TypeError"
                  "function takes exactly 5 arguments (1 given)") /\
  exn_type (mk_exn "TypeError"
                   "function takes exactly 5 arguments (1 given)")
  <> "UnicodeDecodeError"%string /\
  exn_text (mk_exn "TypeError"
                   "function takes exactly 5 arguments (1 given)")
  <> "Traceback (most recent call last): UnicodeDecodeError"%string.
Proof.
  repeat split; try reflexivity; discriminate.
Qed.

(** The witness of C8: a millionth of a minute is less than one sample. *)
Lemma chunk_length_below_one_raises_witness :
  total_chunks (len [1; 2]) (chunk_length (1 # 1000000) 16000)
  = Raise ZeroDivisionError /\
  denoise_samples Sample.estimator_ok
                  (Sample.settings (1 # 1000000) 1 "1000h" false)
                  16000 [1; 2]
  = Raise ZeroDivisionError.
Proof.
  apply (chunk_length_below_one_raises
           Sample.estimator_ok
           (Sample.settings (1 # 1000000) 1 "1000h" false)
           16000 [1; 2] [1; 2]).
  - vm_compute. reflexivity.
  - reflexivity.
  - reflexivity.
Defined.

(** C8 as stated fails: with [truncate_minutes = -1] the chunk length is
    -960000; the scheduler raises nothing, [total_chunks] is 0 and the loop
    returns without a chunk; what raises is [np.concatenate], on the empty
    list. *)
Lemma negative_chunk_length_is_not_refused :
  chunk_length (inject_Z (-1)) 16000 = -960000 /\
  total_chunks (len [1; 2]) (chunk_length (inject_Z (-1)) 16000) = Ok 0 /\
  chunk_loop Sample.estimator_ok
             (Sample.settings (inject_Z (-1)) 1 "1000h" false)
             [1; 2] (chunk_length (inject_Z (-1)) 16000) (chunk_indices 0) []
  = Ok [] /\
  np_concatenate (map astype_int16 []) = Raise ValueError_concatenate /\
  denoise_samples Sample.estimator_ok
                  (Sample.settings (inject_Z (-1)) 1 "1000h" false)
                  16000 [1; 2]
  = Raise ValueError_concatenate.
Proof. repeat split; reflexivity. Qed.

(** The witness of C10: the empty file ahead of a good one. *)
Lemma empty_file_is_skipped_witness :
  main_denoising Sample.estimator_ok
                 (Sample.settings (inject_Z 10) 1 "1000h" true)
                 ["in/empty.wav"; "in/short.wav"]%string Sample.start
  = main_denoising Sample.estimator_ok
                   (Sample.settings (inject_Z 10) 1 "1000h" true)
                   ["in/short.wav"%string]
                   (utils_error
                      Sample.start
                      (Problem "in/empty.wav"
                               (Some "need at least one array to concatenate"%string))).
Proof.
  destruct (empty_file_is_skipped
              Sample.estimator_ok
              (Sample.settings (inject_Z 10) 1 "1000h" true)
              [] ["in/short.wav"%string] "in/empty.wav" Sample.start
              (Sample.mono16 16000 [])
              eq_refl eq_refl eq_refl eq_refl eq_refl eq_refl)
    as (_ & _ & Hskip).
  assert (Hlen : chunk_length (inject_Z 10) SR <> 0)
    by (vm_compute; discriminate).
  destruct (Hskip eq_refl Hlen) as (_ & _ & _ & _ & Hs).
  unfold skipped_with in Hs. destruct Hs as (_ & _ & _ & Hnext).
  exact Hnext.
Defined.

(** C10 as stated fails: with a [truncate_minutes] that gives a chunk length
    of zero, the empty file does not come to the concatenation. Whatever
    buffer peak normalisation returns, the division that computes
    [total_chunks] raises; and when peak normalisation raises, it is its
    exception. *)
Lemma empty_file_with_zero_chunk_length :
  chunk_length (1 # 1000000) 16000 = 0 /\
  total_chunks (len (@nil Z)) (chunk_length (1 # 1000000) 16000)
  = Raise ZeroDivisionError /\
  ZeroDivisionError <> ValueError_concatenate /\
  (forall (U : collaborators) (wav : list Z),
      peak_normalization U [] = Ok wav ->
      denoise_samples U (Sample.settings (1 # 1000000) 1 "1000h" false)
                      16000 []
      = Raise ZeroDivisionError) /\
  (forall (U : collaborators) (e : exn),
      peak_normalization U [] = Raise e ->
      denoise_samples U (Sample.settings (1 # 1000000) 1 "1000h" false)
                      16000 []
      = Raise e).
Proof.
  split; [reflexivity|]. split; [reflexivity|]. split; [discriminate|].
  split; intros U x Hpn; unfold denoise_samples; rewrite Hpn; reflexivity.
Qed.

(** * Witnesses of the further properties *)

Lemma destination_depends_on_name_only_witness :
  dest_of (Sample.settings (inject_Z 10) 1 "1000h" false)
          (os_path_join "in" "a.wav")
  = os_path_join "out" "a.wav".
Proof.
  apply (destination_depends_on_name_only
           (Sample.settings (inject_Z 10) 1 "1000h" false) "in" "a.wav").
  reflexivity.
Defined.

Lemma short_file_is_one_chunk_witness :
  total_chunks (len [1; 2]) (chunk_length (inject_Z 10) 16000)
  = Ok 1.
Proof.
  apply (short_file_is_one_chunk
           Sample.estimator_ok
           (Sample.settings (inject_Z 10) 1 "1000h" false)
           16000 [1; 2] [1; 2]).
  - reflexivity.
  - split; vm_compute; [reflexivity | discriminate].
Defined.

Lemma only_the_last_chunk_can_pass_through_witness :
  total_chunks (len (repeat 0 600)) 256
  = Ok (ceil_div (len (repeat 0 600)) 256).
Proof.
  apply (only_the_last_chunk_can_pass_through
           Sample.estimator_ok
           (Sample.settings (inject_Z 10) 1 "1000h" false)
           (repeat 0 600) 256).
  - vm_compute. reflexivity.
  - lia.
Defined.

Lemma nothing_is_enhanced_below_one_frame_witness :
  denoise_samples Sample.estimator_ok
                  (Sample.settings (1 # 480000) 3 "400h" false)
                  16000 [1; 2; 3]
  = Ok (map wrap16 [1; 2; 3]).
Proof.
  apply (nothing_is_enhanced_below_one_frame
           Sample.estimator_ok
           (Sample.settings (1 # 480000) 3 "400h" false)
           16000 [1; 2; 3] [1; 2; 3]).
  - reflexivity.
  - reflexivity.
  - vm_compute. discriminate.
  - left. vm_compute. reflexivity.
Defined.

Lemma loop_leaves_no_tmp_dir_witness :
  live (snd (chunk_loop_tmp Sample.estimator_ok
                            (Sample.settings (inject_Z 10) 1 "1000h" false)
                            [1; 2; 3] 2 [1; 2] [] {| live := [0%nat]; made := 1 |}))
  = live {| live := [0%nat]; made := 1 |}.
Proof.
  apply (loop_leaves_no_tmp_dir
           Sample.estimator_ok
           (Sample.settings (inject_Z 10) 1 "1000h" false)
           [1; 2; 3] 2 [1; 2] [] {| live := [0%nat]; made := 1 |}).
  repeat constructor.
Defined.


Lemma source_in_output_dir_is_replaced_witness :
  exists f out,
    files Sample.start "in/short.wav"%string = Some f /\
    denoise_samples Sample.estimator_ok Sample.in_place SR (samples f)
    = Ok out /\
    files (process_file Sample.estimator_ok Sample.in_place
                        Sample.start "in/short.wav")
          "in/short.wav"%string
    = Some {| is_wav := true; sr := 16000; num_channels := 1;
              bitdepth := 16; samples := out |}.
Proof.
  apply (source_in_output_dir_is_replaced
           Sample.estimator_ok Sample.in_place Sample.start "short.wav"
           (wav_io_write Sample.disk "in/short.wav" SR [1; 2])).
  - reflexivity.
  - exists (Sample.mono16 16000 [1; 2]). repeat split; reflexivity.
  - reflexivity.
Defined.


Lemma unsupported_mode_skips_the_file_witness :
  process_file Sample.estimator_ok
               (Sample.settings (inject_Z 10) 7 "1000h" true)
               Sample.start "in/frame.wav"
  = utils_error
      Sample.start
      (Problem "in/frame.wav"
               (Some (exn_text UnboundLocalError_recovered_lps))).
Proof.
  apply (unsupported_mode_skips_the_file
           Sample.estimator_ok
           (Sample.settings (inject_Z 10) 7 "1000h" true)
           Sample.start "in/frame.wav"
           (Sample.mono16 16000 Sample.frame) Sample.frame
           [[0%R]] Sample.estimate).
  - reflexivity.
  - reflexivity.
  - reflexivity.
  - reflexivity.
  - reflexivity.
  - discriminate.
  - discriminate.
  - discriminate.
  - reflexivity.
  - vm_compute. discriminate.
  - vm_compute. discriminate.
  - reflexivity.
  - reflexivity.
Defined.


Lemma output_has_the_length_of_the_buffer_witness :
  length [1; 2] = length [1; 2].
Proof.
  apply (output_has_the_length_of_the_buffer
           Sample.estimator_echo
           (Sample.settings (inject_Z 10) 1 "1000h" false)
           16000 [1; 2] [1; 2] [1; 2]).
  - intros recovered t w H. simpl in H. injection H as <-.
    apply length_map.
  - reflexivity.
  - reflexivity.
Defined.

Lemma irm_only_never_amplifies_witness :
  exists recovered,
    recovered_lps 1 [[0%R]] Sample.estimate [0%R] [1%R] = Ok recovered /\
    (entry recovered 0 0 <= entry [[0%R]] 0 0)%R.
Proof.
  destruct (irm_only_never_amplifies
              [[0%R]] Sample.estimate [0%R] [1%R] 1 1)
    as (recovered & Hrec & Hle).
  - split; [reflexivity | repeat constructor].
  - split; [reflexivity | repeat constructor].
  - intros [|t] [|k] Ht Hk; try lia. unfold entry. simpl. lra.
  - exists recovered. split; [exact Hrec | apply Hle; lia].
Defined.

